(** * libmaple [util.c]: the fault path of the firmware

    A shallow embedding of [firmware/libmaple/util.c]: the two fault entry
    points ([_fail], reached through [__assert_func], and [abort]), the
    diagnostic message they print on the error USART, the peripheral
    teardown of [__error] and the LED fade of [throb].

    The functions of [util.c] only ever *write* to the hardware, through the
    libmaple drivers ([nvic.h], [timer.h], [adc.h], [usart.h], [gpio.h]).
    A program is therefore a computation in a state-and-trace monad over a
    record of peripheral registers: every driver call transforms the
    registers and is appended to the trace of peripheral operations. *)

From Stdlib Require Import ZArith NArith String Ascii List Lia.
From stdpp Require Import base decidable countable gmap strings list.

Local Open Scope Z_scope.

(** ** Device handles and enumerations of the driver headers *)

(** [usart_dev *] handles of [usart.h]: [USART n] is the n-th serial port. *)
Inductive usart_dev : Type := USART (n : N).
(** [gpio_dev *] handles of [gpio.h]: [GPIO 0] is port A, [GPIO 1] port B... *)
Inductive gpio_dev : Type := GPIO (n : N).
(** [timer_dev *] handles of [timer.h]. *)
Inductive timer_dev : Type := TIMER (n : N).
(** [adc_dev *] handles of [adc.h]. *)
Inductive adc_dev : Type := ADC (n : N).
(** [nvic_irq_num]: an interrupt line of the controller. *)
Inductive nvic_irq_num : Type := IRQ (n : N).

Definition USART1 : usart_dev := USART 1.
Definition USART2 : usart_dev := USART 2.
Definition GPIOA : gpio_dev := GPIO 0.

(** The two pin modes [util.c] asks for. *)
Inductive gpio_pin_mode : Type := GPIO_OUTPUT_PP | GPIO_AF_OUTPUT_PP.

(** The two peripheral clocks an error USART can be fed from. *)
Inductive clk_speed : Type := STM32_PCLK1 | STM32_PCLK2.

#[export] Instance usart_dev_eq_dec : EqDecision usart_dev.
Proof. solve_decision. Defined.
#[export] Instance gpio_dev_eq_dec : EqDecision gpio_dev.
Proof. solve_decision. Defined.
#[export] Instance timer_dev_eq_dec : EqDecision timer_dev.
Proof. solve_decision. Defined.
#[export] Instance adc_dev_eq_dec : EqDecision adc_dev.
Proof. solve_decision. Defined.
#[export] Instance nvic_irq_num_eq_dec : EqDecision nvic_irq_num.
Proof. solve_decision. Defined.
#[export] Instance gpio_pin_mode_eq_dec : EqDecision gpio_pin_mode.
Proof. solve_decision. Defined.
#[export] Instance clk_speed_eq_dec : EqDecision clk_speed.
Proof. solve_decision. Defined.

#[export] Instance usart_dev_countable : Countable usart_dev.
Proof. by apply (inj_countable' (λ d, match d with USART n => n end) USART); intros []. Defined.
#[export] Instance gpio_dev_countable : Countable gpio_dev.
Proof. by apply (inj_countable' (λ d, match d with GPIO n => n end) GPIO); intros []. Defined.
#[export] Instance timer_dev_countable : Countable timer_dev.
Proof. by apply (inj_countable' (λ d, match d with TIMER n => n end) TIMER); intros []. Defined.
#[export] Instance adc_dev_countable : Countable adc_dev.
Proof. by apply (inj_countable' (λ d, match d with ADC n => n end) ADC); intros []. Defined.
#[export] Instance nvic_irq_num_countable : Countable nvic_irq_num.
Proof. by apply (inj_countable' (λ d, match d with IRQ n => n end) IRQ); intros []. Defined.

(** ** Peripheral registers *)

Record periph : Type := Periph {
  nvic_enabled      : gset nvic_irq_num;   (* interrupt lines enabled at the NVIC *)
  globalirq_enabled : bool;                (* interrupts enabled globally *)
  timers_enabled    : gset timer_dev;
  adcs_enabled      : gset adc_dev;
  usarts_enabled    : gset usart_dev;
  usart_baud        : gmap usart_dev (clk_speed * Z);
  gpio_mode         : gmap (gpio_dev * N) gpio_pin_mode;
  gpio_level        : gmap (gpio_dev * N) bool
}.

(** One call into a driver. *)
Inductive hw_op : Type :=
| Op_nvic_irq_disable_all
| Op_nvic_irq_enable (irq : nvic_irq_num)
| Op_nvic_globalirq_enable
| Op_timer_disable_all
| Op_adc_disable_all
| Op_usart_disable_all
| Op_usart_init (dev : usart_dev)
| Op_usart_set_baud_rate (dev : usart_dev) (clk : clk_speed) (baud : Z)
| Op_usart_putc (dev : usart_dev) (byte : ascii)
| Op_gpio_set_mode (dev : gpio_dev) (pin : N) (mode : gpio_pin_mode)
| Op_gpio_write_bit (dev : gpio_dev) (pin : N) (val : bool).

#[export] Instance hw_op_eq_dec : EqDecision hw_op.
Proof. solve_decision. Defined.

(** Modelled from the spec: the drivers are external collaborators, absent
    from [util.c]; only the capabilities of section 6 of the specification are
    known.  Interrupt controller: disable-all, enable-by-id, global enable.
    Timer, ADC and serial peripheral sets: disable-all.  Serial channel: init
    (the channel is enabled for writing), configure-baud (clock source and
    baud rate are recorded), write-character (no register changes: the
    character goes on the wire, that is, in the trace).  Digital I/O:
    set-pin-mode and write-bit. *)
Definition exec_op (op : hw_op) (hw : periph) : periph :=
  match hw with
  | Periph nv gi tm ad us ub gm gl =>
    match op with
    | Op_nvic_irq_disable_all => Periph ∅ gi tm ad us ub gm gl
    | Op_nvic_irq_enable irq => Periph ({[ irq ]} ∪ nv) gi tm ad us ub gm gl
    | Op_nvic_globalirq_enable => Periph nv true tm ad us ub gm gl
    | Op_timer_disable_all => Periph nv gi ∅ ad us ub gm gl
    | Op_adc_disable_all => Periph nv gi tm ∅ us ub gm gl
    | Op_usart_disable_all => Periph nv gi tm ad ∅ ub gm gl
    | Op_usart_init dev => Periph nv gi tm ad ({[ dev ]} ∪ us) ub gm gl
    | Op_usart_set_baud_rate dev clk baud =>
        Periph nv gi tm ad us (<[ dev := (clk, baud) ]> ub) gm gl
    | Op_usart_putc _ _ => hw
    | Op_gpio_set_mode dev pin mode =>
        Periph nv gi tm ad us ub (<[ (dev, pin) := mode ]> gm) gl
    | Op_gpio_write_bit dev pin val =>
        Periph nv gi tm ad us ub gm (<[ (dev, pin) := val ]> gl)
    end
  end.

(** ** The monad of firmware code *)

(** A computation reads the registers and returns its result, the new
    registers and the driver calls it made, oldest first. *)
Definition hwM (A : Type) : Type := periph → A * periph * list hw_op.

#[export] Instance hwM_ret : MRet hwM := λ A a hw, (a, hw, []).
#[export] Instance hwM_bind : MBind hwM := λ A B k m hw,
  let '(a, hw1, t1) := m hw in
  let '(b, hw2, t2) := k a hw1 in
  (b, hw2, t1 ++ t2).

Definition result {A} (r : A * periph * list hw_op) : A := r.1.1.
Definition regs {A} (r : A * periph * list hw_op) : periph := r.1.2.
Definition ops {A} (r : A * periph * list hw_op) : list hw_op := r.2.

Definition call (op : hw_op) : hwM unit := λ hw, (tt, exec_op op hw, [op]).

(** The characters a trace puts on the wire of one serial channel. *)
Fixpoint sent (dev : usart_dev) (t : list hw_op) : string :=
  match t with
  | [] => EmptyString
  | Op_usart_putc d c :: t' =>
      if decide (d = dev) then String c (sent dev t') else sent dev t'
  | _ :: t' => sent dev t'
  end.

(** ** The drivers called by [util.c] *)

Definition nvic_irq_disable_all : hwM unit := call Op_nvic_irq_disable_all.
Definition nvic_irq_enable (irq : nvic_irq_num) : hwM unit := call (Op_nvic_irq_enable irq).
Definition nvic_globalirq_enable : hwM unit := call Op_nvic_globalirq_enable.
Definition timer_disable_all : hwM unit := call Op_timer_disable_all.
Definition adc_disable_all : hwM unit := call Op_adc_disable_all.
Definition usart_disable_all : hwM unit := call Op_usart_disable_all.
Definition usart_init (dev : usart_dev) : hwM unit := call (Op_usart_init dev).
Definition usart_set_baud_rate (dev : usart_dev) (clk : clk_speed) (baud : Z) : hwM unit :=
  call (Op_usart_set_baud_rate dev clk baud).
Definition usart_putc (dev : usart_dev) (byte : ascii) : hwM unit :=
  call (Op_usart_putc dev byte).
Definition gpio_set_mode (dev : gpio_dev) (pin : N) (mode : gpio_pin_mode) : hwM unit :=
  call (Op_gpio_set_mode dev pin mode).
Definition gpio_write_bit (dev : gpio_dev) (pin : N) (val : bool) : hwM unit :=
  call (Op_gpio_write_bit dev pin val).

(** Modelled from the spec: [usart_putstr] of the absent [usart.c] is the
    write-string capability; it transmits the string character by character.
    A [const char *] argument is represented by the characters in front of
    its terminating NUL. *)
Fixpoint usart_putstr (dev : usart_dev) (str : string) : hwM unit :=
  match str with
  | EmptyString => mret tt
  | String c rest => usart_putc dev c;; usart_putstr dev rest
  end.

(** The characters ['\n'] and ['\r'], and the line end the messages use. *)
Definition LF : ascii := "010".
Definition CR : ascii := "013".
Definition nl_cr : string := String LF (String CR EmptyString).

(** Conversion of a C integer to [uint32]: reduction modulo 2^32. *)
Definition to_uint32 (z : Z) : Z := z mod 2 ^ 32.

(** The character of a decimal digit, ['0' + d]. *)
Definition digit_char (d : Z) : ascii := ascii_of_N (48 + Z.to_N d).

(** The digits of [val], most significant first, in front of [acc]: the
    least significant digit is produced first and the quotient by ten is
    treated the same way while it is positive.  [fuel] bounds the number of
    further digits. *)
Fixpoint udec_digits (fuel : nat) (val : Z) (acc : string) : string :=
  let acc' := String (digit_char (val mod 10)) acc in
  match fuel with
  | O => acc'
  | S fuel' => if 0 <? val / 10 then udec_digits fuel' (val / 10) acc' else acc'
  end.

(** The unsigned decimal rendering of a [uint32]: at most ten digits. *)
Definition udec (val : Z) : string := udec_digits 9 val EmptyString.

(** Modelled from the spec: [usart_putudec] of the absent [usart.c] is the
    write-decimal capability; its [uint32] argument is transmitted as an
    unsigned decimal without leading zeros. *)
Definition usart_putudec (dev : usart_dev) (val : Z) : hwM unit :=
  usart_putstr dev (udec val).

(** The number a string of decimal digits denotes (Horner scheme). *)
Fixpoint decimal_value_from (acc : Z) (s : string) : Z :=
  match s with
  | EmptyString => acc
  | String c rest => decimal_value_from (10 * acc + (Z.of_N (N_of_ascii c) - 48)) rest
  end.
Definition decimal_value (s : string) : Z := decimal_value_from 0 s.

(** A string all of whose characters are decimal digits. *)
Fixpoint all_digits (s : string) : bool :=
  match s with
  | EmptyString => true
  | String c rest =>
      (48 <=? Z.of_N (N_of_ascii c)) && (Z.of_N (N_of_ascii c) <=? 57) && all_digits rest
  end.

(** ** Build-time configuration *)

(** "Failed ASSERT()s send out a message using this USART config." *)
Class error_usart_config : Type := {
  ERROR_USART           : usart_dev;
  ERROR_USART_CLK_SPEED : clk_speed;
  ERROR_USART_BAUD      : Z;
  ERROR_TX_PORT         : gpio_dev;
  ERROR_TX_PIN          : N
}.

(** The preset under [#ifdef BOARD_safecast]. *)
Definition BOARD_safecast : error_usart_config :=
  {| ERROR_USART := USART1; ERROR_USART_CLK_SPEED := STM32_PCLK2;
     ERROR_USART_BAUD := 115200; ERROR_TX_PORT := GPIOA; ERROR_TX_PIN := 7 |}.

(** The preset under [#ifndef ERROR_USART]. *)
Definition BOARD_default : error_usart_config :=
  {| ERROR_USART := USART2; ERROR_USART_CLK_SPEED := STM32_PCLK1;
     ERROR_USART_BAUD := 9600; ERROR_TX_PORT := GPIOA; ERROR_TX_PIN := 2 |}.

(** [ERROR_LED_PORT] and [ERROR_LED_PIN]: each macro is defined by the board
    or not. *)
Class error_led_config : Type := {
  ERROR_LED_PORT : option gpio_dev;
  ERROR_LED_PIN  : option N
}.

(** The two USB interrupt lines, constants of the absent [nvic.h]. *)
Class nvic_usb_lines : Type := {
  NVIC_USB_HP_CAN_TX  : nvic_irq_num;
  NVIC_USB_LP_CAN_RX0 : nvic_irq_num
}.

(** ** The state of the fade loop *)

(** The locals of [throb]: [int32 slope], [uint32 CC], [uint32 i]. *)
Record wave : Type := Wave { slope : Z; CC : Z; i : Z }.

Definition TOP_CNT : Z := 0x0200.

(** [slope = 1; CC = 0x0000; i = 0]. *)
Definition wave_init : wave := Wave 1 0 0.

(** [if (CC == TOP_CNT) slope = -1; else if (CC == 0) slope = 1;] *)
Definition set_slope (st : wave) : wave :=
  if CC st =? TOP_CNT then Wave (-1) (CC st) (i st)
  else if CC st =? 0 then Wave 1 (CC st) (i st)
  else st.

(** [if (i == TOP_CNT) { CC += slope; i = 0; }], the sum taken in [uint32]. *)
Definition advance (st : wave) : wave :=
  if i st =? TOP_CNT
  then Wave (slope st) (to_uint32 (CC st + to_uint32 (slope st))) 0
  else st.

(** The state in which iteration writes the pin: after the two updates. *)
Definition at_write (st : wave) : wave := advance (set_slope st).

(** [i++] in [uint32]. *)
Definition incr_i (st : wave) : wave := Wave (slope st) (CC st) (to_uint32 (i st + 1)).

(** One iteration of the loop on the locals. *)
Definition throb_step (st : wave) : wave := incr_i (at_write st).

(** The locals at the head of iteration [n] (counted from 0), and at its pin write. *)
Definition wave_at (n : N) : wave := N.iter n throb_step wave_init.
Definition wave_at_write (n : N) : wave := at_write (wave_at n).

(** [while (cond) body], run for at most [fuel] iterations: [Some s] when the
    loop is left in state [s], [None] when it is still running. *)
Fixpoint while_loop {S : Type} (cond : S → bool) (body : S → hwM S)
    (fuel : nat) (s : S) : hwM (option S) :=
  if cond s then
    match fuel with
    | O => mret None
    | Datatypes.S fuel' => s' ← body s; while_loop cond body fuel' s'
    end
  else mret (Some s).

(** The constant condition [1] of [while (1)]. *)
Definition always_1 {S : Type} (_ : S) : bool := negb (1 =? 0).

Section Firmware.
Context {error_usart : error_usart_config}.
Context {error_led : error_led_config}.
Context {usb_lines : nvic_usb_lines}.

(** One iteration of [while (1) { ... }] in [throb], LED build. *)
Definition throb_body (port : gpio_dev) (pin : N) (st : wave) : hwM wave :=
  let st := set_slope st in
  let st := advance st in
  (if i st <? CC st
   then gpio_write_bit port pin true
   else gpio_write_bit port pin false);;
  mret (incr_i st).

(** [throb]: [Some tt] would be a return to the caller. *)
Definition throb (fuel : nat) : hwM (option unit) :=
  match ERROR_LED_PORT, ERROR_LED_PIN with
  | Some port, Some pin =>
      (* #ifdef HAVE_ERROR_LED *)
      gpio_set_mode port pin GPIO_OUTPUT_PP;;
      r ← while_loop always_1 (throb_body port pin) fuel wave_init;
      mret (match r with Some _ => Some tt | None => None end)
  | _, _ =>
      (* No error LED is defined; do nothing. *)
      r ← while_loop always_1 (λ u : unit, mret u) fuel tt;
      mret (match r with Some _ => Some tt | None => None end)
  end.

(** The body of [__error] in front of the call of [throb]. *)
Definition __error_teardown : hwM unit :=
  nvic_irq_disable_all;;
  timer_disable_all;;
  adc_disable_all;;
  usart_disable_all;;
  nvic_irq_enable NVIC_USB_HP_CAN_TX;;
  nvic_irq_enable NVIC_USB_LP_CAN_RX0;;
  nvic_globalirq_enable.

Definition __error (fuel : nat) : hwM (option unit) :=
  nvic_irq_disable_all;;
  timer_disable_all;;
  adc_disable_all;;
  usart_disable_all;;
  nvic_irq_enable NVIC_USB_HP_CAN_TX;;
  nvic_irq_enable NVIC_USB_LP_CAN_RX0;;
  nvic_globalirq_enable;;
  throb fuel.

Definition _enable_error_usart : hwM unit :=
  gpio_set_mode ERROR_TX_PORT ERROR_TX_PIN GPIO_AF_OUTPUT_PP;;
  usart_init ERROR_USART;;
  usart_set_baud_rate ERROR_USART ERROR_USART_CLK_SPEED ERROR_USART_BAUD.

(** [line] is an [int]; [usart_putudec] takes a [uint32]. *)
Definition _fail (fuel : nat) (file : string) (line : Z) (exp : string) : hwM (option unit) :=
  _enable_error_usart;;
  usart_putstr ERROR_USART "ERROR: FAILED ASSERT(";;
  usart_putstr ERROR_USART exp;;
  usart_putstr ERROR_USART "): ";;
  usart_putstr ERROR_USART file;;
  usart_putstr ERROR_USART ": ";;
  usart_putudec ERROR_USART (to_uint32 line);;
  usart_putc ERROR_USART LF;;
  usart_putc ERROR_USART CR;;
  __error fuel.

Definition __assert_func (fuel : nat) (file : string) (line : Z) (method : string)
    (expression : string) : hwM (option unit) :=
  _fail fuel file line expression.

Definition abort (fuel : nat) : hwM (option unit) :=
  _enable_error_usart;;
  usart_putstr ERROR_USART ("ERROR: PROGRAM ABORTED VIA abort()" +:+ nl_cr);;
  __error fuel.

End Firmware.

(** ** Vocabulary of the statements *)

(** Character writes, and the calls that only touch the digital I/O. *)
Definition is_putc (o : hw_op) : bool :=
  match o with Op_usart_putc _ _ => true | _ => false end.
Definition is_gpio (o : hw_op) : bool :=
  match o with Op_gpio_set_mode _ _ _ | Op_gpio_write_bit _ _ _ => true | _ => false end.

(** The character writes of a string on a channel. *)
Definition putc_ops (dev : usart_dev) (s : string) : list hw_op :=
  map (Op_usart_putc dev) (list_ascii_of_string s).

(** The message of a failed assertion and the message of [abort]. *)
Definition assert_message (file : string) (line : Z) (exp : string) : string :=
  "ERROR: FAILED ASSERT(" +:+ exp +:+ "): " +:+ file +:+ ": " +:+ udec line +:+ nl_cr.
Definition abort_message : string := "ERROR: PROGRAM ABORTED VIA abort()" +:+ nl_cr.

(** The triangle wave of period 1024 with peak 512. *)
Definition triangle (m : Z) : Z := if m <=? 512 then m else 1024 - m.

(** The length of one rise and fall, in iterations of the loop. *)
Definition cycle_length : N := 2 * 512 * 512.

(** The level an iteration writes to the LED pin. *)
Definition led_level (st : wave) : bool := i st <? CC st.

(** The invariant of the loop: the locals at the head of an iteration. *)
Definition wave_ok (st : wave) : Prop :=
  0 ≤ CC st ≤ TOP_CNT ∧ 0 ≤ i st ≤ TOP_CNT ∧ (slope st = 1 ∨ slope st = -1).

(** Concrete builds and a machine with peripherals running, for evaluation. *)
Definition led_on_A5 : error_led_config :=
  {| ERROR_LED_PORT := Some GPIOA; ERROR_LED_PIN := Some 5%N |}.
Definition no_led : error_led_config :=
  {| ERROR_LED_PORT := None; ERROR_LED_PIN := None |}.
Definition stm32f1_usb_lines : nvic_usb_lines :=
  {| NVIC_USB_HP_CAN_TX := IRQ 19; NVIC_USB_LP_CAN_RX0 := IRQ 20 |}.
Definition busy_machine : periph :=
  {| nvic_enabled := {[ IRQ 6; IRQ 28; IRQ 37 ]};
     globalirq_enabled := false;
     timers_enabled := {[ TIMER 1; TIMER 2 ]};
     adcs_enabled := {[ ADC 1 ]};
     usarts_enabled := {[ USART 1; USART 3 ]};
     usart_baud := {[ USART 1 := (STM32_PCLK2, 57600) ]};
     gpio_mode := {[ (GPIOA, 5%N) := GPIO_OUTPUT_PP ]};
     gpio_level := {[ (GPIOA, 5%N) := true ]} |}.

(** The outcome [r] of the rest of a computation that has already made the
    calls [t]. *)
Definition after_ops {A : Type} (t : list hw_op) (r : A * periph * list hw_op) :
    A * periph * list hw_op :=
  (result r, regs r, t ++ ops r).

(** The pin writes of [fuel] iterations of the fade loop entered with locals [st]. *)
Fixpoint fade_ops (port : gpio_dev) (pin : N) (fuel : nat) (st : wave) : list hw_op :=
  match fuel with
  | O => []
  | S fuel' =>
      Op_gpio_write_bit port pin (led_level (at_write st)) :: fade_ops port pin fuel' (throb_step st)
  end.

(** The registers [hw] with other digital I/O registers. *)
Definition with_gpio (hw : periph) (gm : gmap (gpio_dev * N) gpio_pin_mode)
    (gl : gmap (gpio_dev * N) bool) : periph :=
  Periph (nvic_enabled hw) (globalirq_enabled hw) (timers_enabled hw) (adcs_enabled hw)
    (usarts_enabled hw) (usart_baud hw) gm gl.

(** In the trace [t] the serial peripherals are shut down exactly once, at
    position [b]; every character write of [t] comes before [b], and the
    characters written on [dev] up to [b] are the message [msg]. *)
Definition report_precedes_shutdown (t : list hw_op) (dev : usart_dev) (msg : string) : Prop :=
  ∃ b : nat,
    t !! b = Some Op_usart_disable_all ∧
    (∀ j : nat, t !! j = Some Op_usart_disable_all → j = b) ∧
    (∀ (a : nat) (d : usart_dev) (c : ascii), t !! a = Some (Op_usart_putc d c) → (a < b)%nat) ∧
    sent dev (take b t) = msg.

(** ** Vocabulary of the further properties *)

(** The level of the pin write of iteration [n] in closed form: high in the
    first [triangle] sub-iterations of its block of 512. *)
Definition pin_high (n : N) : bool :=
  Z.of_N n mod 512 <? triangle (Z.of_N n / 512 mod 1024).

(** The number of high pin writes among the [len] iterations from [start] on. *)
Fixpoint high_writes (start : N) (len : nat) : nat :=
  match len with
  | O => O
  | S len' =>
      ((if led_level (wave_at_write start) then 1 else 0) + high_writes (N.succ start) len')%nat
  end.

(** In the trace [t] the transmit pin is made an alternate-function output,
    the channel [dev] is initialised and its baud rate is set, in this order
    and before anything else; every character write comes after these three
    calls and goes to [dev]. *)
Definition init_precedes_writes (t : list hw_op) (port : gpio_dev) (pin : N)
    (dev : usart_dev) (clk : clk_speed) (baud : Z) : Prop :=
  t !! 0%nat = Some (Op_gpio_set_mode port pin GPIO_AF_OUTPUT_PP) ∧
  t !! 1%nat = Some (Op_usart_init dev) ∧
  t !! 2%nat = Some (Op_usart_set_baud_rate dev clk baud) ∧
  (∀ (a : nat) (d : usart_dev) (c : ascii),
     t !! a = Some (Op_usart_putc d c) → (3 ≤ a)%nat ∧ d = dev).

(** * Properties *)

(** ** Running computations *)

Lemma bind_run {A B : Type} (m : hwM A) (k : A → hwM B) (hw : periph) :
  (m ≫= k) hw =
  (result (k (result (m hw)) (regs (m hw))),
   regs (k (result (m hw)) (regs (m hw))),
   ops (m hw) ++ ops (k (result (m hw)) (regs (m hw)))).
Proof.
  unfold mbind, hwM_bind, result, regs, ops.
  destruct (m hw) as [[a h1] t1]; simpl.
  by destruct (k a h1) as [[b h2] t2].
Qed.

Lemma bind_run_after {A B : Type} (m : hwM A) (k : A → hwM B) (hw hw1 : periph)
    (a : A) (t1 : list hw_op) :
  m hw = (a, hw1, t1) → (m ≫= k) hw = after_ops t1 (k a hw1).
Proof. intros Hm. by rewrite bind_run, Hm. Qed.

Lemma after_ops_after_ops {A : Type} (t1 t2 : list hw_op) (r : A * periph * list hw_op) :
  after_ops t1 (after_ops t2 r) = after_ops (t1 ++ t2) r.
Proof. unfold after_ops, result, regs, ops. simpl. by rewrite app_assoc. Qed.

Lemma call_run (op : hw_op) (hw : periph) : call op hw = (tt, exec_op op hw, [op]).
Proof. done. Qed.

Lemma result_bind {A B : Type} (m : hwM A) (k : A → hwM B) (hw : periph) :
  result ((m ≫= k) hw) = result (k (result (m hw)) (regs (m hw))).
Proof. by rewrite bind_run. Qed.

Lemma ret_run {A : Type} (a : A) (hw : periph) : (mret a : hwM A) hw = (a, hw, []).
Proof. done. Qed.

Lemma surjective_pairing_run {A : Type} (m : hwM A) (hw : periph) :
  m hw = (result (m hw), regs (m hw), ops (m hw)).
Proof. by destruct (m hw) as [[a h] t]. Qed.

Lemma exec_op_putc (dev : usart_dev) (c : ascii) (hw : periph) :
  exec_op (Op_usart_putc dev c) hw = hw.
Proof. by destruct hw. Qed.

(** ** The wire *)

Lemma string_app_nil_r (s : string) : s +:+ EmptyString = s.
Proof.
  induction s as [|c s IH]; [done|].
  change (String c (s +:+ EmptyString) = String c s). by rewrite IH.
Qed.

Lemma sent_app (dev : usart_dev) (t1 t2 : list hw_op) :
  sent dev (t1 ++ t2) = sent dev t1 +:+ sent dev t2.
Proof.
  induction t1 as [|o t1 IH]; [done|].
  destruct o; simpl; try done.
  case_decide; simpl; by rewrite IH.
Qed.

Lemma sent_putc_ops (dev : usart_dev) (s : string) : sent dev (putc_ops dev s) = s.
Proof.
  induction s as [|c s IH]; [done|].
  unfold putc_ops in *; simpl. rewrite decide_True by done. by rewrite IH.
Qed.

Lemma sent_putc_ops_other (dev dev' : usart_dev) (s : string) :
  dev' ≠ dev → sent dev' (putc_ops dev s) = EmptyString.
Proof.
  intros Hne. induction s as [|c s IH]; [done|].
  unfold putc_ops in *; simpl. rewrite decide_False by done. by rewrite IH.
Qed.

Lemma sent_no_putc (dev : usart_dev) (t : list hw_op) :
  forallb (λ o, negb (is_putc o)) t = true → sent dev t = EmptyString.
Proof.
  induction t as [|o t IH]; [done|].
  simpl. intros [Ho Ht]%andb_true_iff. destruct o; try done; by apply IH.
Qed.

Lemma putc_ops_app (dev : usart_dev) (s1 s2 : string) :
  putc_ops dev (s1 +:+ s2) = putc_ops dev s1 ++ putc_ops dev s2.
Proof.
  unfold putc_ops. induction s1 as [|c s1 IH]; [done|]. simpl. by rewrite IH.
Qed.

(** [usart_putstr] writes the characters of the string, in order, and leaves
    the registers alone. *)
Lemma usart_putstr_run (dev : usart_dev) (s : string) (hw : periph) :
  usart_putstr dev s hw = (tt, hw, putc_ops dev s).
Proof.
  revert hw. induction s as [|c s IH]; intros hw; [done|].
  simpl. rewrite bind_run, IH. unfold putc_ops. simpl. by destruct hw.
Qed.

Lemma usart_putudec_run (dev : usart_dev) (val : Z) (hw : periph) :
  usart_putudec dev val hw = (tt, hw, putc_ops dev (udec val)).
Proof. apply usart_putstr_run. Qed.

(** ** Unsigned decimal rendering *)

Lemma to_uint32_range (z : Z) : 0 ≤ to_uint32 z < 2 ^ 32.
Proof. unfold to_uint32. apply Z.mod_pos_bound. lia. Qed.

Lemma to_uint32_small (z : Z) : 0 ≤ z < 2 ^ 32 → to_uint32 z = z.
Proof. intros Hz. unfold to_uint32. by apply Z.mod_small. Qed.

Lemma digit_char_code (d : Z) : 0 ≤ d < 10 → Z.of_N (N_of_ascii (digit_char d)) = 48 + d.
Proof.
  intros Hd. unfold digit_char. rewrite N_ascii_embedding; lia.
Qed.

Lemma digit_char_zero (d : Z) : 0 ≤ d < 10 → digit_char d = "0"%char → d = 0.
Proof.
  intros Hd Heq. pose proof (digit_char_code d Hd) as Hc.
  rewrite Heq in Hc. simpl in Hc. lia.
Qed.

Lemma udec_digits_value (fuel : nat) (val : Z) (acc : string) :
  0 ≤ val < 10 ^ Z.of_nat (S fuel) →
  decimal_value_from 0 (udec_digits fuel val acc) = decimal_value_from val acc.
Proof.
  revert val acc. induction fuel as [|fuel IH]; intros val acc Hval.
  - simpl. rewrite digit_char_code by (apply Z.mod_pos_bound; lia).
    rewrite Z.mod_small by (simpl in Hval; lia). f_equal. lia.
  - cbn [udec_digits]. destruct (Z.ltb_spec 0 (val / 10)) as [Hq|Hq].
    + rewrite IH.
      * cbn [decimal_value_from].
        rewrite digit_char_code by (apply Z.mod_pos_bound; lia).
        f_equal. pose proof (Z.div_mod val 10). lia.
      * split; [lia|]. apply Z.div_lt_upper_bound; [lia|].
        replace (Z.of_nat (S (S fuel))) with (Z.succ (Z.of_nat (S fuel))) in Hval by lia.
        rewrite Z.pow_succ_r in Hval by lia. lia.
    + cbn [decimal_value_from].
      rewrite digit_char_code by (apply Z.mod_pos_bound; lia).
      f_equal. pose proof (Z.div_mod val 10). pose proof (Z.div_pos val 10). lia.
Qed.

Lemma udec_digits_all_digits (fuel : nat) (val : Z) (acc : string) :
  0 ≤ val → all_digits (udec_digits fuel val acc) = all_digits acc.
Proof.
  assert (Hd : ∀ v rest, all_digits (String (digit_char (v mod 10)) rest) = all_digits rest).
  { intros v rest. cbn [all_digits].
    pose proof (Z.mod_pos_bound v 10 ltac:(lia)) as Hm.
    rewrite digit_char_code by done.
    destruct (Z.leb_spec 48 (48 + v mod 10)), (Z.leb_spec (48 + v mod 10) 57); simpl; lia || done. }
  revert val acc. induction fuel as [|fuel IH]; intros val acc Hval.
  - apply Hd.
  - cbn [udec_digits]. destruct (Z.ltb_spec 0 (val / 10)) as [Hq|Hq]; [|apply Hd].
    rewrite IH by lia. apply Hd.
Qed.

Lemma udec_digits_head (fuel : nat) (val : Z) (acc : string) :
  0 < val < 10 ^ Z.of_nat (S fuel) →
  ∃ c rest, udec_digits fuel val acc = String c rest ∧ c ≠ "0"%char.
Proof.
  assert (Hlast : ∀ v, 0 < v → ¬ 0 < v / 10 → digit_char (v mod 10) ≠ "0"%char).
  { intros v Hv Hq Heq.
    apply digit_char_zero in Heq; [|apply Z.mod_pos_bound; lia].
    pose proof (Z.div_mod v 10). pose proof (Z.div_pos v 10). lia. }
  revert val acc. induction fuel as [|fuel IH]; intros val acc Hval.
  - simpl. eexists _, _. split; [done|].
    apply Hlast; [lia|]. simpl in Hval.
    rewrite Z.div_small by lia. lia.
  - cbn [udec_digits]. destruct (Z.ltb_spec 0 (val / 10)) as [Hq|Hq].
    + apply IH. split; [done|]. apply Z.div_lt_upper_bound; [lia|].
      replace (Z.of_nat (S (S fuel))) with (Z.succ (Z.of_nat (S fuel))) in Hval by lia.
      rewrite Z.pow_succ_r in Hval by lia. lia.
    + eexists _, _. split; [done|]. apply Hlast; lia.
Qed.

(** [udec] is the decimal rendering of a [uint32]: its characters are digits,
    they denote the number, and the only rendering that starts with a zero is
    that of zero itself. *)
Lemma udec_spec (val : Z) :
  0 ≤ val < 2 ^ 32 →
  decimal_value (udec val) = val ∧
  all_digits (udec val) = true ∧
  (∀ rest, udec val = String "0" rest → val = 0 ∧ rest = EmptyString).
Proof.
  intros Hval. unfold udec, decimal_value. split_and!.
  - rewrite udec_digits_value; [done|]. simpl. lia.
  - by rewrite udec_digits_all_digits by lia.
  - intros rest Heq. destruct (decide (val = 0)) as [->|Hne].
    + by inversion Heq.
    + destruct (udec_digits_head 9 val EmptyString) as (c & r & Hc & Hnz).
      { simpl. lia. }
      rewrite Hc in Heq. by inversion Heq.
Qed.

(** ** Loops *)

(** A [while (1)] loop is never left, whatever its body. *)
Lemma while_1_result {S : Type} (body : S → hwM S) (fuel : nat) (s : S) (hw : periph) :
  result (while_loop always_1 body fuel s hw) = None.
Proof.
  revert s hw. induction fuel as [|fuel IH]; intros s hw; [done|].
  cbn [while_loop]. change (always_1 _) with true. cbv iota. by rewrite result_bind.
Qed.

(** The empty loop of the build without LED does nothing at all. *)
Lemma while_1_skip_run (fuel : nat) (hw : periph) :
  while_loop always_1 (λ u : unit, mret u) fuel tt hw = (None, hw, []).
Proof.
  induction fuel as [|fuel IH]; [done|].
  cbn [while_loop]. change (always_1 _) with true. cbv iota. rewrite bind_run.
  rewrite ret_run. cbn [result regs ops fst snd]. by rewrite IH.
Qed.

(** One iteration of the fade loop: the locals make a [throb_step], the pin
    is written with the level of the duty cycle. *)
Lemma throb_body_run (port : gpio_dev) (pin : N) (st : wave) (hw : periph) :
  throb_body port pin st hw =
  (throb_step st,
   with_gpio hw (gpio_mode hw) (<[ (port, pin) := led_level (at_write st) ]> (gpio_level hw)),
   [Op_gpio_write_bit port pin (led_level (at_write st))]).
Proof.
  unfold throb_body, throb_step, led_level, at_write. cbv zeta. rewrite bind_run.
  destruct hw. by destruct (i (advance (set_slope st)) <? CC (advance (set_slope st))).
Qed.

(** The fade loop writes the LED pin once per iteration and touches nothing
    but the level of the digital outputs. *)
Lemma fade_loop_run (port : gpio_dev) (pin : N) (fuel : nat) (st : wave) (hw : periph) :
  ∃ gl, while_loop always_1 (throb_body port pin) fuel st hw
        = (None, with_gpio hw (gpio_mode hw) gl, fade_ops port pin fuel st).
Proof.
  revert st hw. induction fuel as [|fuel IH]; intros st hw.
  - exists (gpio_level hw). by destruct hw.
  - cbn [while_loop]. change (always_1 _) with true. cbv iota.
    rewrite bind_run, throb_body_run. cbn [result regs ops fst snd].
    destruct (IH (throb_step st) (with_gpio hw (gpio_mode hw)
       (<[ (port, pin) := led_level (at_write st) ]> (gpio_level hw)))) as [gl ->].
    exists gl. by destruct hw.
Qed.

Lemma fade_ops_length (port : gpio_dev) (pin : N) (fuel : nat) (st : wave) :
  length (fade_ops port pin fuel st) = fuel.
Proof. revert st. induction fuel as [|fuel IH]; intros st; simpl; by rewrite ?IH. Qed.

Lemma fade_ops_gpio (port : gpio_dev) (pin : N) (fuel : nat) (st : wave) :
  forallb is_gpio (fade_ops port pin fuel st) = true.
Proof. revert st. induction fuel as [|fuel IH]; intros st; simpl; by rewrite ?IH. Qed.

(** The write of iteration [k] shows the locals of iteration [k]. *)
Lemma fade_ops_lookup (port : gpio_dev) (pin : N) (fuel k : nat) (st : wave) :
  (k < fuel)%nat →
  fade_ops port pin fuel st !! k =
  Some (Op_gpio_write_bit port pin (led_level (at_write (N.iter (N.of_nat k) throb_step st)))).
Proof.
  revert k st. induction fuel as [|fuel IH]; intros k st Hk; [lia|].
  destruct k as [|k]; [done|].
  cbn [fade_ops]. rewrite lookup_cons. rewrite IH by lia.
  rewrite Nat2N.inj_succ, N.iter_succ_r. done.
Qed.

Lemma gpio_not_putc (t : list hw_op) :
  forallb is_gpio t = true → forallb (λ o, negb (is_putc o)) t = true.
Proof.
  induction t as [|o t IH]; [done|]. simpl.
  intros [Ho Ht]%andb_true_iff. rewrite IH by done. by destruct o.
Qed.

Lemma gpio_not_op (t : list hw_op) (x : hw_op) :
  is_gpio x = false → forallb is_gpio t = true → Forall (λ o, o ≠ x) t.
Proof.
  intros Hx. induction t as [|o t IH]; [done|]. simpl.
  intros [Ho Ht]%andb_true_iff. constructor; [|by apply IH]. intros ->. congruence.
Qed.

(** Order in a trace cut at an operation [x]: when [x] occurs neither before
    nor after the cut, and no operation after the cut satisfies [P], then
    every operation that satisfies [P] comes strictly before the only [x]. *)
Lemma cut_order (P : hw_op → bool) (x : hw_op) (pre post : list hw_op) :
  P x = false →
  Forall (λ o, o ≠ x) pre →
  Forall (λ o, o ≠ x) post →
  forallb (λ o, negb (P o)) post = true →
  (pre ++ x :: post) !! length pre = Some x ∧
  (∀ j, (pre ++ x :: post) !! j = Some x → j = length pre) ∧
  (∀ a o, (pre ++ x :: post) !! a = Some o → P o = true → (a < length pre)%nat).
Proof.
  intros HPx Hpre Hpost HP. split_and!.
  - by rewrite list_lookup_middle.
  - intros j Hj. apply lookup_app_Some in Hj as [Hj|[Hge Hj]].
    + rewrite Forall_lookup in Hpre. by destruct (Hpre _ _ Hj).
    + destruct (j - length pre)%nat as [|m] eqn:Hm; [lia|].
      simpl in Hj. rewrite Forall_lookup in Hpost. by destruct (Hpost _ _ Hj).
  - intros a o Ha Ho. apply lookup_app_Some in Ha as [Ha|[Hge Ha]].
    + by apply lookup_lt_Some in Ha.
    + destruct (a - length pre)%nat as [|m] eqn:Hm.
      * simpl in Ha. congruence.
      * simpl in Ha. apply list_elem_of_lookup_2 in Ha.
        rewrite forallb_forall in HP. apply list_elem_of_In, HP in Ha.
        rewrite Ho in Ha. done.
Qed.

Section Firmware_properties.
Context {error_usart : error_usart_config}.
Context {error_led : error_led_config}.
Context {usb_lines : nvic_usb_lines}.

(** *** [throb] *)

Lemma throb_led_run (port : gpio_dev) (pin : N) (fuel : nat) (hw : periph) :
  ERROR_LED_PORT = Some port → ERROR_LED_PIN = Some pin →
  ∃ gl, throb fuel hw =
        (None, with_gpio hw (<[ (port, pin) := GPIO_OUTPUT_PP ]> (gpio_mode hw)) gl,
         Op_gpio_set_mode port pin GPIO_OUTPUT_PP :: fade_ops port pin fuel wave_init).
Proof.
  intros Hport Hpin. unfold throb. rewrite Hport, Hpin.
  rewrite bind_run. cbn [gpio_set_mode call result regs ops fst snd].
  rewrite bind_run.
  destruct (fade_loop_run port pin fuel wave_init
              (exec_op (Op_gpio_set_mode port pin GPIO_OUTPUT_PP) hw)) as [gl ->].
  exists gl. cbn [result regs ops fst snd]. rewrite ret_run.
  cbn [result regs ops fst snd]. rewrite app_nil_r. by destruct hw.
Qed.

Lemma throb_no_led_run (fuel : nat) (hw : periph) :
  ERROR_LED_PORT = None ∨ ERROR_LED_PIN = None →
  throb fuel hw = (None, hw, []).
Proof.
  assert (Hskip : (r ← while_loop always_1 (λ u : unit, mret u) fuel tt;
                   mret (match r with Some _ => Some tt | None => None end)) hw
                  = (None, hw, [])).
  { rewrite bind_run, while_1_skip_run. done. }
  intros Hno. unfold throb.
  destruct Hno as [-> | ->]; [done|]. by destruct ERROR_LED_PORT.
Qed.

(** Whatever the build, [throb] has not returned and has changed nothing but
    digital I/O registers, through digital I/O calls. *)
Lemma throb_run (fuel : nat) (hw : periph) :
  ∃ gm gl t, throb fuel hw = (None, with_gpio hw gm gl, t) ∧ forallb is_gpio t = true.
Proof.
  destruct ERROR_LED_PORT as [port|] eqn:Hport, ERROR_LED_PIN as [pin|] eqn:Hpin.
  - destruct (throb_led_run port pin fuel hw Hport Hpin) as [gl ->].
    eexists _, _, _. split; [done|]. simpl. apply fade_ops_gpio.
  - exists (gpio_mode hw), (gpio_level hw), []. rewrite throb_no_led_run by auto.
    by destruct hw.
  - exists (gpio_mode hw), (gpio_level hw), []. rewrite throb_no_led_run by auto.
    by destruct hw.
  - exists (gpio_mode hw), (gpio_level hw), []. rewrite throb_no_led_run by auto.
    by destruct hw.
Qed.

(** *** [__error] *)

Lemma __error_teardown_run (hw : periph) :
  __error_teardown hw =
  (tt,
   Periph ({[ NVIC_USB_LP_CAN_RX0 ]} ∪ ({[ NVIC_USB_HP_CAN_TX ]} ∪ ∅)) true ∅ ∅ ∅
     (usart_baud hw) (gpio_mode hw) (gpio_level hw),
   [Op_nvic_irq_disable_all; Op_timer_disable_all; Op_adc_disable_all;
    Op_usart_disable_all; Op_nvic_irq_enable NVIC_USB_HP_CAN_TX;
    Op_nvic_irq_enable NVIC_USB_LP_CAN_RX0; Op_nvic_globalirq_enable]).
Proof. by destruct hw. Qed.

(** [__error] is its teardown followed by [throb]. *)
Lemma __error_run (fuel : nat) (hw : periph) :
  __error fuel hw =
  (result (throb fuel (regs (__error_teardown hw))),
   regs (throb fuel (regs (__error_teardown hw))),
   ops (__error_teardown hw) ++ ops (throb fuel (regs (__error_teardown hw)))).
Proof.
  unfold __error. rewrite !bind_run. rewrite __error_teardown_run.
  by destruct hw.
Qed.

Lemma _enable_error_usart_run (hw : periph) :
  _enable_error_usart hw =
  (tt,
   Periph (nvic_enabled hw) (globalirq_enabled hw) (timers_enabled hw) (adcs_enabled hw)
     ({[ ERROR_USART ]} ∪ usarts_enabled hw)
     (<[ ERROR_USART := (ERROR_USART_CLK_SPEED, ERROR_USART_BAUD) ]> (usart_baud hw))
     (<[ (ERROR_TX_PORT, ERROR_TX_PIN) := GPIO_AF_OUTPUT_PP ]> (gpio_mode hw))
     (gpio_level hw),
   [Op_gpio_set_mode ERROR_TX_PORT ERROR_TX_PIN GPIO_AF_OUTPUT_PP;
    Op_usart_init ERROR_USART;
    Op_usart_set_baud_rate ERROR_USART ERROR_USART_CLK_SPEED ERROR_USART_BAUD]).
Proof. by destruct hw. Qed.

(** The part of a fault trace in front of the serial shutdown, and the part
    behind it. *)
Lemma __error_cut (fuel : nat) (hw : periph) :
  ∃ post,
    ops (__error fuel hw) =
      [Op_nvic_irq_disable_all; Op_timer_disable_all; Op_adc_disable_all]
      ++ Op_usart_disable_all :: post ∧
    forallb (λ o, negb (is_putc o)) post = true ∧
    Forall (λ o, o ≠ Op_usart_disable_all) post.
Proof.
  rewrite __error_run, __error_teardown_run. cbn [result regs ops fst snd].
  destruct (throb_run fuel (Periph ({[ NVIC_USB_LP_CAN_RX0 ]} ∪ ({[ NVIC_USB_HP_CAN_TX ]} ∪ ∅))
              true ∅ ∅ ∅ (usart_baud hw) (gpio_mode hw) (gpio_level hw)))
    as (gm & gl & t & -> & Ht).
  cbn [result regs ops fst snd]. eexists. split; [reflexivity|]. split.
  - simpl. by apply gpio_not_putc.
  - repeat (constructor; [done|]). by apply gpio_not_op.
Qed.

(** *** The entry points *)

Lemma _fail_run (fuel : nat) (file : string) (line : Z) (exp : string) (hw : periph) :
  _fail fuel file line exp hw =
  (result (__error fuel (regs (_enable_error_usart hw))),
   regs (__error fuel (regs (_enable_error_usart hw))),
   ops (_enable_error_usart hw)
   ++ putc_ops ERROR_USART (assert_message file (to_uint32 line) exp)
   ++ ops (__error fuel (regs (_enable_error_usart hw)))).
Proof.
  unfold _fail, assert_message, nl_cr.
  erewrite bind_run_after by apply surjective_pairing_run.
  do 5 (erewrite bind_run_after by apply usart_putstr_run;
        rewrite after_ops_after_ops).
  erewrite bind_run_after by apply usart_putudec_run. rewrite after_ops_after_ops.
  unfold usart_putc.
  do 2 (erewrite bind_run_after by apply call_run;
        rewrite after_ops_after_ops, exec_op_putc).
  unfold after_ops. f_equal.
  rewrite !putc_ops_app.
  change (putc_ops ERROR_USART (String LF (String CR EmptyString)))
    with ([Op_usart_putc ERROR_USART LF] ++ [Op_usart_putc ERROR_USART CR]).
  by rewrite <- !app_assoc.
Qed.

Lemma abort_run (fuel : nat) (hw : periph) :
  abort fuel hw =
  (result (__error fuel (regs (_enable_error_usart hw))),
   regs (__error fuel (regs (_enable_error_usart hw))),
   ops (_enable_error_usart hw)
   ++ putc_ops ERROR_USART abort_message
   ++ ops (__error fuel (regs (_enable_error_usart hw)))).
Proof.
  unfold abort. rewrite !bind_run, usart_putstr_run. done.
Qed.

Lemma __error_silent (fuel : nat) (hw : periph) :
  forallb (λ o, negb (is_putc o)) (ops (__error fuel hw)) = true.
Proof. destruct (__error_cut fuel hw) as (post & -> & Hpost & _). done. Qed.

Lemma fault_trace_sent (dev : usart_dev) (msg : string) (hw : periph) (t : list hw_op) :
  forallb (λ o, negb (is_putc o)) t = true →
  sent dev (ops (_enable_error_usart hw) ++ putc_ops ERROR_USART msg ++ t) =
  sent dev (putc_ops ERROR_USART msg).
Proof.
  intros Ht. rewrite _enable_error_usart_run, !sent_app, (sent_no_putc dev t Ht).
  cbn [ops snd sent]. rewrite string_app_nil_r. done.
Qed.

Lemma fault_trace_order (msg : string) (hw : periph) (fuel : nat) :
  report_precedes_shutdown
    (ops (_enable_error_usart hw) ++ putc_ops ERROR_USART msg
     ++ ops (__error fuel (regs (_enable_error_usart hw))))
    ERROR_USART msg.
Proof.
  destruct (__error_cut fuel (regs (_enable_error_usart hw))) as (post & -> & Hpost & Hne).
  set (pre := ops (_enable_error_usart hw) ++ putc_ops ERROR_USART msg
              ++ [Op_nvic_irq_disable_all; Op_timer_disable_all; Op_adc_disable_all]).
  replace (ops (_enable_error_usart hw) ++ putc_ops ERROR_USART msg
           ++ [Op_nvic_irq_disable_all; Op_timer_disable_all; Op_adc_disable_all]
           ++ Op_usart_disable_all :: post)
    with (pre ++ Op_usart_disable_all :: post)
    by (unfold pre; by rewrite <- !app_assoc).
  destruct (cut_order is_putc Op_usart_disable_all pre post) as (Hb & Huniq & Hord);
    [done| |done|done|].
  { unfold pre. rewrite _enable_error_usart_run. cbn [ops snd].
    rewrite !Forall_app. split_and!.
    - by repeat constructor.
    - unfold putc_ops. apply Forall_forall. intros o [c [-> _]]%list_elem_of_fmap. done.
    - by repeat constructor. }
  exists (length pre). split_and!; [done|done| |].
  - intros a d c Ha. by apply (Hord a _ Ha).
  - rewrite take_app_length. unfold pre.
    rewrite (fault_trace_sent ERROR_USART msg hw) by done. apply sent_putc_ops.
Qed.

Lemma __error_result (fuel : nat) (hw : periph) : result (__error fuel hw) = None.
Proof.
  rewrite __error_run. cbn [result fst].
  destruct (throb_run fuel (regs (__error_teardown hw))) as (gm & gl & t & -> & _). done.
Qed.

(** What [_fail] puts on the wire of the error USART, and that it does not
    come back. *)
Lemma _fail_sent (fuel : nat) (file : string) (line : Z) (exp : string) (hw : periph) :
  sent ERROR_USART (ops (_fail fuel file line exp hw)) =
  assert_message file (to_uint32 line) exp.
Proof.
  rewrite _fail_run. cbn [ops snd].
  rewrite fault_trace_sent by apply __error_silent. apply sent_putc_ops.
Qed.

Lemma _fail_result (fuel : nat) (file : string) (line : Z) (exp : string) (hw : periph) :
  result (_fail fuel file line exp hw) = None.
Proof. rewrite _fail_run. cbn [result fst]. apply __error_result. Qed.

Lemma abort_result (fuel : nat) (hw : periph) : result (abort fuel hw) = None.
Proof. rewrite abort_run. cbn [result fst]. apply __error_result. Qed.

(** ** The claims *)

(** C1. On a failed assertion, for every file, line and expression, [_fail]
    transmits on the error USART exactly the characters of
    "ERROR: FAILED ASSERT(<exp>): <file>: <line>" followed by line feed and
    carriage return, and nothing on any other channel.  The line, an [int]
    converted to [uint32], is rendered in decimal: its digits denote the
    number and no rendering but that of zero starts with a zero.  A
    non-negative line is rendered as itself. *)
Theorem _fail_transmits (fuel : nat) (file : string) (line : Z) (exp : string)
    (hw : periph) :
  sent ERROR_USART (ops (_fail fuel file line exp hw)) =
    "ERROR: FAILED ASSERT(" +:+ exp +:+ "): " +:+ file +:+ ": "
      +:+ udec (to_uint32 line) +:+ String LF (String CR EmptyString) ∧
  (∀ dev, dev ≠ ERROR_USART →
     sent dev (ops (_fail fuel file line exp hw)) = EmptyString) ∧
  decimal_value (udec (to_uint32 line)) = to_uint32 line ∧
  all_digits (udec (to_uint32 line)) = true ∧
  (∀ rest, udec (to_uint32 line) = String "0" rest →
     to_uint32 line = 0 ∧ rest = EmptyString) ∧
  (0 ≤ line < 2 ^ 32 → to_uint32 line = line).
Proof.
  destruct (udec_spec (to_uint32 line) (to_uint32_range line)) as (Hval & Hdig & Hlead).
  split_and!; [| |done|done|done|apply to_uint32_small].
  - apply _fail_sent.
  - intros dev Hdev. rewrite _fail_run. cbn [ops snd].
    rewrite fault_trace_sent by apply __error_silent.
    by apply sent_putc_ops_other.
Qed.

(** C5. Every call of [abort], whatever the state of the peripherals,
    transmits on the error USART exactly
    "ERROR: PROGRAM ABORTED VIA abort()" followed by line feed and carriage
    return, and nothing on any other channel. *)
Theorem abort_transmits (fuel : nat) (hw : periph) :
  sent ERROR_USART (ops (abort fuel hw)) =
    "ERROR: PROGRAM ABORTED VIA abort()" +:+ String LF (String CR EmptyString) ∧
  (∀ dev, dev ≠ ERROR_USART → sent dev (ops (abort fuel hw)) = EmptyString).
Proof.
  split.
  - rewrite abort_run. cbn [ops snd].
    rewrite fault_trace_sent by apply __error_silent. apply sent_putc_ops.
  - intros dev Hdev. rewrite abort_run. cbn [ops snd].
    rewrite fault_trace_sent by apply __error_silent.
    by apply sent_putc_ops_other.
Qed.

(** C7. In the trace of [_fail] and in the trace of [abort] the serial
    peripherals are disabled exactly once, every character write comes
    strictly before that step, and the characters written before it are
    the whole diagnostic message. *)
Theorem report_before_serial_shutdown (fuel : nat) (file : string) (line : Z)
    (exp : string) (hw : periph) :
  report_precedes_shutdown (ops (_fail fuel file line exp hw)) ERROR_USART
    (assert_message file (to_uint32 line) exp) ∧
  report_precedes_shutdown (ops (abort fuel hw)) ERROR_USART abort_message.
Proof.
  split.
  - rewrite _fail_run. cbn [ops snd]. apply fault_trace_order.
  - rewrite abort_run. cbn [ops snd]. apply fault_trace_order.
Qed.

(** C2. [__error] makes its teardown calls in this order: disable all
    interrupt lines, all timers, all ADCs, all USARTs, enable the line
    [NVIC_USB_HP_CAN_TX], enable the line [NVIC_USB_LP_CAN_RX0], enable
    interrupts globally; whatever follows is digital I/O of the LED fade.
    Whatever the peripherals were doing and however long the fade has run,
    afterwards exactly the two USB lines are enabled at the controller,
    interrupts are enabled globally and no timer, ADC or USART is enabled. *)
Theorem __error_quiesces (fuel : nat) (hw : periph) :
  ∃ rest : list hw_op,
    ops (__error fuel hw) =
      [Op_nvic_irq_disable_all; Op_timer_disable_all; Op_adc_disable_all;
       Op_usart_disable_all; Op_nvic_irq_enable NVIC_USB_HP_CAN_TX;
       Op_nvic_irq_enable NVIC_USB_LP_CAN_RX0; Op_nvic_globalirq_enable] ++ rest ∧
    forallb is_gpio rest = true ∧
    nvic_enabled (regs (__error fuel hw)) = {[ NVIC_USB_HP_CAN_TX; NVIC_USB_LP_CAN_RX0 ]} ∧
    globalirq_enabled (regs (__error fuel hw)) = true ∧
    timers_enabled (regs (__error fuel hw)) = ∅ ∧
    adcs_enabled (regs (__error fuel hw)) = ∅ ∧
    usarts_enabled (regs (__error fuel hw)) = ∅.
Proof.
  rewrite __error_run, __error_teardown_run. cbn [result regs ops fst snd].
  destruct (throb_run fuel (Periph ({[ NVIC_USB_LP_CAN_RX0 ]} ∪ ({[ NVIC_USB_HP_CAN_TX ]} ∪ ∅))
              true ∅ ∅ ∅ (usart_baud hw) (gpio_mode hw) (gpio_level hw)))
    as (gm & gl & t & -> & Ht).
  exists t. cbn [result regs ops fst snd with_gpio nvic_enabled globalirq_enabled
                 timers_enabled adcs_enabled usarts_enabled].
  split_and!; try done.
  rewrite (right_id_L ∅ (∪)). apply (comm_L (∪)).
Qed.

(** C8. The quiescing sequence of [__error] is idempotent: run on the
    registers it has produced, it makes the same calls and leaves these
    registers as they are.  It is the whole of [__error] in front of the
    call of [throb]. *)
Theorem quiesce_idempotent (hw : periph) :
  regs (__error_teardown (regs (__error_teardown hw))) = regs (__error_teardown hw) ∧
  ops (__error_teardown (regs (__error_teardown hw))) = ops (__error_teardown hw) ∧
  (∀ fuel : nat, __error fuel hw = (__error_teardown;; throb fuel) hw).
Proof.
  split_and!.
  - by rewrite !__error_teardown_run.
  - by rewrite !__error_teardown_run.
  - intros fuel. by rewrite __error_run, bind_run.
Qed.

(** C9. [_enable_error_usart] is idempotent on the registers.  Each call
    sets the transmit pin to alternate-function push-pull output, enables
    the error USART and records the clock source and baud rate of the
    build, by one call of each of the three drivers. *)
Theorem _enable_error_usart_idempotent (hw : periph) :
  regs (_enable_error_usart (regs (_enable_error_usart hw))) = regs (_enable_error_usart hw) ∧
  gpio_mode (regs (_enable_error_usart hw)) !! (ERROR_TX_PORT, ERROR_TX_PIN)
    = Some GPIO_AF_OUTPUT_PP ∧
  ERROR_USART ∈ usarts_enabled (regs (_enable_error_usart hw)) ∧
  usart_baud (regs (_enable_error_usart hw)) !! ERROR_USART
    = Some (ERROR_USART_CLK_SPEED, ERROR_USART_BAUD) ∧
  ops (_enable_error_usart hw) =
    [Op_gpio_set_mode ERROR_TX_PORT ERROR_TX_PIN GPIO_AF_OUTPUT_PP;
     Op_usart_init ERROR_USART;
     Op_usart_set_baud_rate ERROR_USART ERROR_USART_CLK_SPEED ERROR_USART_BAUD].
Proof.
  rewrite !_enable_error_usart_run.
  cbn [regs ops fst snd nvic_enabled globalirq_enabled timers_enabled adcs_enabled
       usarts_enabled usart_baud gpio_mode gpio_level].
  split_and!.
  - rewrite !insert_insert_eq. f_equal.
    by rewrite (assoc_L (∪)), (idemp_L (∪)).
  - apply lookup_insert_eq.
  - by apply elem_of_union_l, elem_of_singleton.
  - apply lookup_insert_eq.
  - done.
Qed.

(** C10. [__assert_func] does not look at its [method] argument: with any
    two method names it returns the same result, leaves the same registers
    and makes the same driver calls, character writes included.  What it
    transmits is the message of [_fail] for its file, line and expression,
    and like [_fail] it does not return. *)
Theorem __assert_func_ignores_method (fuel : nat) (file : string) (line : Z)
    (m1 m2 : string) (expression : string) (hw : periph) :
  __assert_func fuel file line m1 expression hw =
    __assert_func fuel file line m2 expression hw ∧
  sent ERROR_USART (ops (__assert_func fuel file line m1 expression hw)) =
    "ERROR: FAILED ASSERT(" +:+ expression +:+ "): " +:+ file +:+ ": "
      +:+ udec (to_uint32 line) +:+ String LF (String CR EmptyString) ∧
  result (__assert_func fuel file line m1 expression hw) = None.
Proof.
  unfold __assert_func. split_and!.
  - reflexivity.
  - apply _fail_sent.
  - apply _fail_result.
Qed.

End Firmware_properties.

(** ** The fade loop on its locals *)

Lemma wave_at_succ (n : N) : wave_at (N.succ n) = throb_step (wave_at n).
Proof. unfold wave_at. by rewrite N.iter_succ. Qed.

Lemma wave_at_write_succ (n : N) :
  wave_at_write (N.succ n) = at_write (incr_i (wave_at_write n)).
Proof. unfold wave_at_write. by rewrite wave_at_succ. Qed.

(** Every iteration moves the inner counter, so no iteration leaves the
    locals as they were. *)
Lemma throb_step_changes (st : wave) : throb_step st ≠ st.
Proof.
  destruct st as [s c j]. unfold throb_step, at_write, incr_i, advance, to_uint32.
  intros Heq. apply (f_equal i) in Heq. revert Heq.
  change (2 ^ 32) with 4294967296.
  assert (Hj : i (set_slope (Wave s c j)) = j).
  { unfold set_slope. simpl. by repeat case_match. }
  rewrite Hj. unfold TOP_CNT. destruct (Z.eqb_spec j 512) as [->|Hne]; simpl.
  - done.
  - rewrite Hj. intros Heq.
    pose proof (Z.div_mod (j + 1) 4294967296 ltac:(lia)). lia.
Qed.

Lemma set_slope_CC (st : wave) : CC (set_slope st) = CC st.
Proof. unfold set_slope. by repeat case_match. Qed.

Lemma set_slope_i (st : wave) : i (set_slope st) = i st.
Proof. unfold set_slope. by repeat case_match. Qed.

(** The slope is assigned only at the two ends of the range. *)
Lemma set_slope_changes (st : wave) :
  slope (set_slope st) ≠ slope st → CC st = 0 ∨ CC st = TOP_CNT.
Proof.
  unfold set_slope.
  destruct (Z.eqb_spec (CC st) TOP_CNT); [auto|].
  destruct (Z.eqb_spec (CC st) 0); [auto|]. done.
Qed.

Lemma throb_step_slope (st : wave) : slope (throb_step st) = slope (set_slope st).
Proof. unfold throb_step, at_write, incr_i, advance. simpl. by case_match. Qed.

(** [wave_ok] holds on entry and is kept by every statement of the body. *)
Lemma wave_init_ok : wave_ok wave_init.
Proof. unfold wave_ok, wave_init, TOP_CNT. simpl. lia. Qed.

Lemma set_slope_ok (st : wave) :
  wave_ok st →
  wave_ok (set_slope st) ∧
  (CC st = TOP_CNT → slope (set_slope st) = -1) ∧
  (CC st = 0 → slope (set_slope st) = 1).
Proof.
  unfold wave_ok, set_slope, TOP_CNT. intros (HC & Hi & Hs).
  destruct (Z.eqb_spec (CC st) 512), (Z.eqb_spec (CC st) 0); simpl; lia.
Qed.

Lemma advance_ok (st : wave) :
  wave_ok st →
  (CC st = TOP_CNT → slope st = -1) →
  (CC st = 0 → slope st = 1) →
  0 ≤ CC (advance st) ≤ TOP_CNT ∧ 0 ≤ i (advance st) < TOP_CNT ∨
  0 ≤ CC (advance st) ≤ TOP_CNT ∧ i (advance st) = i st ∧ i st ≠ TOP_CNT.
Proof.
  unfold wave_ok, advance, to_uint32, TOP_CNT. change (2 ^ 32) with 4294967296.
  intros (HC & Hi & Hs) Htop Hbot.
  destruct (Z.eqb_spec (i st) 512) as [Heq|Hne]; simpl; [left|right; lia].
  split; [|lia]. destruct Hs as [Hs|Hs]; rewrite Hs in *.
  - rewrite (Z.mod_small 1) by lia. rewrite Z.mod_small; lia.
  - change (-1 mod 4294967296) with 4294967295.
    replace (CC st + 4294967295) with ((CC st - 1) + 1 * 4294967296) by lia.
    rewrite Z.mod_add by lia. rewrite Z.mod_small; lia.
Qed.

Lemma throb_step_ok (st : wave) :
  wave_ok st →
  wave_ok (throb_step st) ∧
  0 ≤ CC (set_slope st) ≤ TOP_CNT ∧
  0 ≤ CC (advance (set_slope st)) ≤ TOP_CNT.
Proof.
  intros Hok. destruct (set_slope_ok st Hok) as (Hok1 & Htop & Hbot).
  rewrite set_slope_CC in *.
  assert (Hadv := advance_ok (set_slope st) Hok1).
  rewrite set_slope_CC in Hadv. specialize (Hadv Htop Hbot).
  assert (Hsl : slope (advance (set_slope st)) = slope (set_slope st))
    by (unfold advance; by case_match).
  destruct Hok as (HC & Hi & Hs). destruct Hok1 as (_ & Hi1 & Hs1).
  unfold wave_ok, throb_step, at_write, incr_i, to_uint32. simpl.
  change (2 ^ 32) with 4294967296. rewrite Hsl. unfold TOP_CNT in *.
  destruct Hadv as [(HC' & Hi') | (HC' & Hi' & Hne)].
  - rewrite Z.mod_small by lia. lia.
  - rewrite Hi' in *. rewrite Z.mod_small by lia. lia.
Qed.

Lemma wave_at_ok (n : N) : wave_ok (wave_at n).
Proof.
  induction n as [|n IH] using N.peano_ind.
  - apply wave_init_ok.
  - rewrite wave_at_succ. by apply throb_step_ok.
Qed.

(** C3. In every iteration of the fade loop entered with [CC = 0],
    [slope = 1], [i = 0], with ceiling [TOP_CNT = 0x200 = 512]: [CC] is within
    [0, TOP_CNT] at the head of the iteration, after the assignment of the
    slope, after the update of [CC] and at the end of the iteration; and an
    iteration changes the slope only if it is entered with [CC = 0] or
    [CC = TOP_CNT]. *)
Theorem throb_amplitude_invariant (n : N) :
  TOP_CNT = 512 ∧
  wave_at 0 = Wave 1 0 0 ∧
  0 ≤ CC (wave_at n) ≤ TOP_CNT ∧
  0 ≤ CC (set_slope (wave_at n)) ≤ TOP_CNT ∧
  0 ≤ CC (advance (set_slope (wave_at n))) ≤ TOP_CNT ∧
  0 ≤ CC (wave_at (N.succ n)) ≤ TOP_CNT ∧
  (slope (wave_at (N.succ n)) ≠ slope (wave_at n) →
     CC (wave_at n) = 0 ∨ CC (wave_at n) = TOP_CNT).
Proof.
  pose proof (wave_at_ok n) as Hok.
  destruct (throb_step_ok _ Hok) as (Hok' & H1 & H2).
  destruct Hok as (HC & _), Hok' as (HC' & _).
  rewrite wave_at_succ, throb_step_slope.
  repeat (split; [done|]). apply set_slope_changes.
Qed.

(** *** The triangle wave *)

(** Quotient and remainder of a successor, for the two periods of the loop. *)
Lemma succ_div_mod_512 (z : Z) :
  z mod 512 < 511 ∧ (z + 1) / 512 = z / 512 ∧ (z + 1) mod 512 = z mod 512 + 1 ∨
  z mod 512 = 511 ∧ (z + 1) / 512 = z / 512 + 1 ∧ (z + 1) mod 512 = 0.
Proof. Z.div_mod_to_equations. lia. Qed.

Lemma succ_mod_1024 (q : Z) :
  q mod 1024 < 1023 ∧ (q + 1) mod 1024 = q mod 1024 + 1 ∨
  q mod 1024 = 1023 ∧ (q + 1) mod 1024 = 0.
Proof. Z.div_mod_to_equations. lia. Qed.

(** [CC += slope] in [uint32] is a step up or a step down. *)
Lemma CC_plus_slope (c s : Z) :
  0 ≤ c ≤ 512 →
  (s = 1 → to_uint32 (c + to_uint32 s) = c + 1) ∧
  (s = -1 → 1 ≤ c → to_uint32 (c + to_uint32 s) = c - 1).
Proof.
  intros Hc. unfold to_uint32. change (2 ^ 32) with 4294967296. split.
  - intros ->. rewrite (Z.mod_small 1) by lia. apply Z.mod_small. lia.
  - intros -> Hc1. change (-1 mod 4294967296) with 4294967295.
    replace (c + 4294967295) with ((c - 1) + 1 * 4294967296) by lia.
    rewrite Z.mod_add by lia. apply Z.mod_small. lia.
Qed.

(** The locals at the pin write of iteration [n], in closed form: the inner
    counter is [n mod 512], the amplitude follows the triangle wave on
    [n / 512], and inside a flank the slope has the sign of the flank. *)
Lemma wave_at_write_closed (n : N) :
  i (wave_at_write n) = Z.of_N n mod 512 ∧
  CC (wave_at_write n) = triangle (Z.of_N n / 512 mod 1024) ∧
  (slope (wave_at_write n) = 1 ∨ slope (wave_at_write n) = -1) ∧
  (0 < Z.of_N n / 512 mod 1024 < 512 → slope (wave_at_write n) = 1) ∧
  (512 < Z.of_N n / 512 mod 1024 → slope (wave_at_write n) = -1).
Proof.
  induction n as [|n IH] using N.peano_ind.
  - change (wave_at_write 0) with (Wave 1 0 0).
    change (Z.of_N 0 / 512 mod 1024) with 0. change (Z.of_N 0 mod 512) with 0.
    cbn [slope CC i]. unfold triangle. simpl. lia.
  - rewrite wave_at_write_succ, N2Z.inj_succ. unfold Z.succ.
    generalize dependent (Z.of_N n). intros z IH.
    destruct (wave_at_write n) as [s c j]. cbn [slope CC i] in IH.
    destruct IH as (Hi & HC & Hs & Hup & Hdown).
    pose proof (Z.mod_pos_bound z 512 ltac:(lia)) as Hr.
    pose proof (Z.mod_pos_bound (z / 512) 1024 ltac:(lia)) as Hm.
    assert (Hc : 0 ≤ c ≤ 512).
    { rewrite HC. unfold triangle. case_match; lia. }
    (* the three statements of the body, one after the other *)
    unfold at_write, incr_i. cbn [slope CC i].
    rewrite (to_uint32_small (j + 1)) by lia.
    assert (Hset : ∃ s', set_slope (Wave s c (j + 1)) = Wave s' c (j + 1) ∧
                     (s' = 1 ∨ s' = -1) ∧ (c = 512 → s' = -1) ∧ (c = 0 → s' = 1) ∧
                     (0 < c < 512 → s' = s)).
    { unfold set_slope, TOP_CNT. cbn [slope CC i].
      destruct (Z.eqb_spec c 512); [exists (-1); split; [done|lia]|].
      destruct (Z.eqb_spec c 0); [exists 1; split; [done|lia]|].
      exists s. split; [done|lia]. }
    destruct Hset as (s' & -> & Hs' & Htop & Hbot & Hmid).
    destruct (CC_plus_slope c s' Hc) as [Hplus Hminus].
    unfold advance, TOP_CNT. cbn [slope CC i].
    destruct (succ_div_mod_512 z) as [(Hr1 & -> & ->) | (Hr1 & -> & ->)].
    + (* inside a block of 512 iterations *)
      destruct (Z.eqb_spec (j + 1) 512); [lia|]. cbn [slope CC i].
      revert HC Hup Hdown. unfold triangle.
      generalize dependent (z / 512 mod 1024). intros m. intros.
      destruct (Z.leb_spec m 512); lia.
    + (* at the end of a block the amplitude moves *)
      destruct (Z.eqb_spec (j + 1) 512); [|lia]. cbn [slope CC i].
      revert HC Hup Hdown. unfold triangle.
      destruct (succ_mod_1024 (z / 512)) as [(Hm1 & ->) | (Hm1 & ->)];
        generalize dependent (z / 512 mod 1024); intros m; intros;
        destruct (Z.leb_spec m 512); try change (0 <=? 512) with true; cbv iota;
        try destruct (Z.leb_spec (m + 1) 512);
        destruct Hs' as [Hs'|Hs']; rewrite ?Hplus, ?Hminus by lia; lia.
Qed.

Lemma wave_at_write_period (n : N) :
  CC (wave_at_write (n + cycle_length)) = CC (wave_at_write n) ∧
  i (wave_at_write (n + cycle_length)) = i (wave_at_write n).
Proof.
  destruct (wave_at_write_closed (n + cycle_length)) as (Hi' & HC' & _).
  destruct (wave_at_write_closed n) as (Hi & HC & _).
  rewrite Hi', HC', Hi, HC. rewrite N2Z.inj_add.
  change (Z.of_N cycle_length) with (1024 * 512).
  rewrite Z.div_add by lia. rewrite Z.mod_add by lia.
  replace (Z.of_N n / 512 + 1024) with (Z.of_N n / 512 + 1 * 1024) by lia.
  by rewrite Z.mod_add by lia.
Qed.

(** C6. With ceiling 512 one rise and fall of the amplitude takes exactly
    2 * 512 * 512 = 524288 iterations of the loop.  Iteration [n], counted
    from 0, drives the pin with the locals [wave_at_write n]: its inner
    counter is [n mod 512] and its amplitude the triangle wave on [n / 512].
    The amplitude is 0 in iteration 0, below 512 in the iterations before
    262144, where it is 512, above 0 from there to iteration 524288, where
    it is 0 again; amplitude, inner counter and pin level repeat every 524288
    iterations and with no shorter period.  The locals at the head of an
    iteration, from iteration 1 on, repeat with the same period. *)
Theorem fade_cycle_length :
  cycle_length = 524288%N ∧
  (∀ n : N, CC (wave_at_write n) = triangle (Z.of_N n / 512 mod 1024) ∧
            i (wave_at_write n) = Z.of_N n mod 512) ∧
  CC (wave_at_write 0) = 0 ∧
  (∀ n : N, (n < 262144)%N → CC (wave_at_write n) < 512) ∧
  CC (wave_at_write 262144) = 512 ∧
  (∀ n : N, (262144 ≤ n < 524288)%N → 0 < CC (wave_at_write n)) ∧
  CC (wave_at_write 524288) = 0 ∧
  (∀ n : N, CC (wave_at_write (n + cycle_length)) = CC (wave_at_write n) ∧
            i (wave_at_write (n + cycle_length)) = i (wave_at_write n) ∧
            led_level (wave_at_write (n + cycle_length)) = led_level (wave_at_write n)) ∧
  (∀ n : N, CC (wave_at (N.succ n + cycle_length)) = CC (wave_at (N.succ n)) ∧
            i (wave_at (N.succ n + cycle_length)) = i (wave_at (N.succ n))) ∧
  (∀ p : N, (0 < p < cycle_length)%N →
            ∃ n : N, CC (wave_at_write (n + p)) ≠ CC (wave_at_write n)).
Proof.
  assert (Hamp : ∀ n : N, CC (wave_at_write n) = triangle (Z.of_N n / 512 mod 1024))
    by (intros n; apply wave_at_write_closed).
  split_and!.
  - done.
  - intros n. destruct (wave_at_write_closed n) as (Hi & HC & _). done.
  - by rewrite Hamp.
  - intros n Hn. rewrite Hamp. unfold triangle.
    destruct (Z.leb_spec (Z.of_N n / 512 mod 1024) 512); Z.div_mod_to_equations; lia.
  - by rewrite Hamp.
  - intros n Hn. rewrite Hamp. unfold triangle.
    destruct (Z.leb_spec (Z.of_N n / 512 mod 1024) 512); Z.div_mod_to_equations; lia.
  - by rewrite Hamp.
  - intros n. destruct (wave_at_write_period n) as [HC Hi].
    unfold led_level. by rewrite HC, Hi.
  - intros n. destruct (wave_at_write_period n) as [HC Hi].
    rewrite N.add_succ_l, !wave_at_succ. unfold throb_step, incr_i.
    fold (wave_at_write n). fold (wave_at_write (n + cycle_length)).
    cbn [CC i]. by rewrite HC, Hi.
  - intros p Hp. unfold cycle_length in Hp.
    destruct (decide (p < 512)%N) as [Hsmall|Hbig].
    + exists (512 - p)%N. replace (512 - p + p)%N with 512%N by lia.
      rewrite !Hamp. unfold triangle.
      replace (Z.of_N (512 - p) / 512 mod 1024) with 0; [done|].
      rewrite Z.div_small by lia. done.
    + exists 0%N. rewrite N.add_0_l, !Hamp. unfold triangle.
      change (Z.of_N 0 / 512 mod 1024) with 0. change (0 <=? 512) with true. cbv iota.
      destruct (Z.leb_spec (Z.of_N p / 512 mod 1024) 512); Z.div_mod_to_equations; lia.
Qed.

(** ** Divergence *)

Section Fade_properties.
Context {error_led : error_led_config}.

(** C4. [throb] never returns, in the build with an error LED and in the
    build without: however many iterations are granted, the loop has not
    been left.  With an LED the loop keeps working: after the pin has been
    made an output, every granted iteration writes the pin, iteration [k]
    with the level of its locals, and the locals of successive iterations
    differ.  Without an LED nothing is written and no register changes. *)
Theorem throb_never_returns (fuel : nat) (hw : periph) :
  result (throb fuel hw) = None ∧
  (∀ (port : gpio_dev) (pin : N),
     ERROR_LED_PORT = Some port → ERROR_LED_PIN = Some pin →
     length (ops (throb fuel hw)) = S fuel ∧
     ops (throb fuel hw) !! 0%nat = Some (Op_gpio_set_mode port pin GPIO_OUTPUT_PP) ∧
     ∀ k : nat, (k < fuel)%nat →
       ops (throb fuel hw) !! S k =
       Some (Op_gpio_write_bit port pin (led_level (wave_at_write (N.of_nat k))))) ∧
  (ERROR_LED_PORT = None ∨ ERROR_LED_PIN = None →
     ops (throb fuel hw) = [] ∧ regs (throb fuel hw) = hw) ∧
  (∀ n : N, wave_at (N.succ n) ≠ wave_at n).
Proof.
  split_and!.
  - destruct (throb_run fuel hw) as (gm & gl & t & -> & _). done.
  - intros port pin Hport Hpin.
    destruct (throb_led_run port pin fuel hw Hport Hpin) as [gl ->].
    cbn [ops snd]. split_and!.
    + simpl. by rewrite fade_ops_length.
    + done.
    + intros k Hk. rewrite lookup_cons. by apply fade_ops_lookup.
  - intros Hno. by rewrite throb_no_led_run.
  - intros n. rewrite wave_at_succ. apply throb_step_changes.
Qed.

End Fade_properties.

(** ** The statements at concrete inputs *)

(** The assertion [x>0] failing at line 42 of [main.c], on the safecast board. *)
Lemma _fail_transmits_witness :
  sent USART1 (ops (@_fail BOARD_safecast led_on_A5 stm32f1_usb_lines 3
                      "main.c" 42 "x>0" busy_machine))
    = "ERROR: FAILED ASSERT(x>0): main.c: 42" +:+ String LF (String CR EmptyString) ∧
  sent USART2 (ops (@_fail BOARD_safecast led_on_A5 stm32f1_usb_lines 3
                      "main.c" 42 "x>0" busy_machine)) = EmptyString ∧
  to_uint32 42 = 42.
Proof.
  destruct (@_fail_transmits BOARD_safecast led_on_A5 stm32f1_usb_lines 3
              "main.c" 42 "x>0" busy_machine) as (Hmsg & Hother & _ & _ & _ & Hline).
  split; [exact Hmsg|]. split.
  - apply Hother. discriminate.
  - apply Hline. split; [discriminate|reflexivity].
Defined.

(** [abort] on the default board: the message goes out on USART2, USART1
    stays silent. *)
Lemma abort_transmits_witness :
  sent USART2 (ops (@abort BOARD_default no_led stm32f1_usb_lines 1 busy_machine))
    = "ERROR: PROGRAM ABORTED VIA abort()" +:+ String LF (String CR EmptyString) ∧
  sent USART1 (ops (@abort BOARD_default no_led stm32f1_usb_lines 1 busy_machine))
    = EmptyString.
Proof.
  destruct (@abort_transmits BOARD_default no_led stm32f1_usb_lines 1 busy_machine)
    as (Hmsg & Hother).
  split; [exact Hmsg|]. apply Hother. discriminate.
Defined.

(** The first character of the assertion message, call number 3 of the
    trace, is written before the serial peripherals are disabled. *)
Lemma report_before_serial_shutdown_witness :
  ∃ b : nat,
    ops (@_fail BOARD_safecast led_on_A5 stm32f1_usb_lines 1
           "main.c" 42 "x>0" busy_machine) !! b = Some Op_usart_disable_all ∧
    (3 < b)%nat.
Proof.
  destruct (@report_before_serial_shutdown BOARD_safecast led_on_A5 stm32f1_usb_lines 1
              "main.c" 42 "x>0" busy_machine) as [(b & Hb & _ & Hord & _) _].
  exists b. split; [exact Hb|].
  apply (Hord 3%nat USART1 "E"%char). reflexivity.
Defined.

(** Iteration 262145 is entered with the amplitude at the ceiling and turns
    the slope. *)
Lemma throb_amplitude_invariant_witness :
  CC (wave_at 262145) = 0 ∨ CC (wave_at 262145) = TOP_CNT.
Proof.
  destruct (throb_amplitude_invariant 262145) as (_ & _ & _ & _ & _ & _ & Hslope).
  apply Hslope. vm_compute. discriminate.
Defined.

(** Two iterations of the fade on pin A5, and of the empty loop. *)
Lemma throb_never_returns_witness :
  ops (@throb led_on_A5 2 busy_machine) !! 1%nat
    = Some (Op_gpio_write_bit GPIOA 5 false) ∧
  ops (@throb no_led 2 busy_machine) = [].
Proof.
  destruct (@throb_never_returns led_on_A5 2 busy_machine) as (_ & Hled & _ & _).
  destruct (Hled GPIOA 5%N eq_refl eq_refl) as (_ & _ & Hk).
  destruct (@throb_never_returns no_led 2 busy_machine) as (_ & _ & Hnone & _).
  split.
  - apply (Hk 0%nat). repeat constructor.
  - apply Hnone. by left.
Defined.

(** An iteration of the rise, one of the fall, and a period that is too short. *)
Lemma fade_cycle_length_witness :
  CC (wave_at_write 1000) < 512 ∧
  0 < CC (wave_at_write 300000) ∧
  ∃ n : N, CC (wave_at_write (n + 7)) ≠ CC (wave_at_write n).
Proof.
  destruct fade_cycle_length as (_ & _ & _ & Hrise & _ & Hfall & _ & _ & _ & Hmin).
  split; [apply Hrise; reflexivity|]. split.
  - apply Hfall. split; discriminate || reflexivity.
  - apply Hmin. split; reflexivity.
Defined.

(** * Further properties of [util.c] *)

(** ** The fade as the LED shows it *)

Lemma led_level_closed (n : N) : led_level (wave_at_write n) = pin_high n.
Proof.
  destruct (wave_at_write_closed n) as (Hi & HC & _).
  unfold led_level, pin_high. by rewrite Hi, HC.
Qed.

Lemma triangle_range (m : Z) : 0 ≤ m < 1024 → 0 ≤ triangle m ≤ 512.
Proof. intros Hm. unfold triangle. destruct (Z.leb_spec m 512); lia. Qed.

(** High writes among the sub-iterations [k0 .. k0 + len) of block [m]. *)
Lemma high_writes_block (m : N) (len : nat) (k0 : N) :
  (Z.of_N k0 + Z.of_nat len ≤ 512) →
  Z.of_nat (high_writes (512 * m + k0) len) =
  Z.max 0 (Z.min (triangle (Z.of_N m mod 1024)) (Z.of_N k0 + Z.of_nat len) - Z.of_N k0).
Proof.
  revert k0. induction len as [|len IH]; intros k0 Hlen.
  - cbn [high_writes]. lia.
  - cbn [high_writes]. rewrite Nat2Z.inj_add.
    replace (N.succ (512 * m + k0)) with (512 * m + N.succ k0)%N by lia.
    rewrite IH by lia. rewrite led_level_closed. unfold pin_high.
    assert (Hq : Z.of_N (512 * m + k0) / 512 = Z.of_N m).
    { rewrite N2Z.inj_add, N2Z.inj_mul. change (Z.of_N 512) with 512.
      Z.div_mod_to_equations. lia. }
    assert (Hr : Z.of_N (512 * m + k0) mod 512 = Z.of_N k0).
    { rewrite N2Z.inj_add, N2Z.inj_mul. change (Z.of_N 512) with 512.
      Z.div_mod_to_equations. lia. }
    rewrite Hq, Hr.
    pose proof (triangle_range (Z.of_N m mod 1024)
                  (Z.mod_pos_bound _ 1024 ltac:(lia))) as Hc.
    generalize dependent (triangle (Z.of_N m mod 1024)). intros c Hc.
    rewrite N2Z.inj_succ.
    destruct (Z.ltb_spec (Z.of_N k0) c); lia.
Qed.

(** X3. The duty cycle of the fade: of the 512 pin writes of block [m], as
    many are high as the amplitude of the block, [triangle (m mod 1024)]; the
    high writes are the first ones of the block.  So the LED is dark
    throughout block 0 and lit throughout block 512. *)
Theorem throb_duty_cycle (m : N) :
  Z.of_nat (high_writes (512 * m) 512) = triangle (Z.of_N m mod 1024) ∧
  (∀ k : N, (k < 512)%N →
     led_level (wave_at_write (512 * m + k))
     = (Z.of_N k <? triangle (Z.of_N m mod 1024))) ∧
  high_writes 0 512 = 0%nat ∧
  high_writes (512 * 512) 512 = 512%nat.
Proof.
  assert (Hcount : ∀ m' : N,
    Z.of_nat (high_writes (512 * m') 512) = triangle (Z.of_N m' mod 1024)).
  { intros m'. pose proof (high_writes_block m' 512 0) as Hb.
    rewrite N.add_0_r in Hb. rewrite Hb by (simpl; lia).
    pose proof (triangle_range (Z.of_N m' mod 1024)
                  (Z.mod_pos_bound _ 1024 ltac:(lia))).
    change (Z.of_N 0) with 0. change (Z.of_nat 512) with 512. lia. }
  split_and!.
  - apply Hcount.
  - intros k Hk. rewrite led_level_closed. unfold pin_high.
    replace (Z.of_N (512 * m + k) / 512) with (Z.of_N m)
      by (rewrite N2Z.inj_add, N2Z.inj_mul; change (Z.of_N 512) with 512;
          Z.div_mod_to_equations; lia).
    replace (Z.of_N (512 * m + k) mod 512) with (Z.of_N k)
      by (rewrite N2Z.inj_add, N2Z.inj_mul; change (Z.of_N 512) with 512;
          Z.div_mod_to_equations; lia).
    done.
  - apply Nat2Z.inj. exact (Hcount 0%N).
  - apply Nat2Z.inj. exact (Hcount 512%N).
Qed.

(** X5. The amplitude moves one step at a time and only between blocks:
    from the pin write of iteration [n] to the next one it is unchanged
    unless [n] is the last iteration of its block of 512, and then it goes up
    by one on the rising flank and down by one on the falling flank.  Inside
    a flank the slope has the sign of the flank. *)
Theorem throb_amplitude_steps (n : N) :
  CC (wave_at_write (N.succ n)) - CC (wave_at_write n) =
    (if Z.of_N n mod 512 =? 511
     then if Z.of_N n / 512 mod 1024 <? 512 then 1 else -1
     else 0) ∧
  (0 < Z.of_N n / 512 mod 1024 < 512 → slope (wave_at_write n) = 1) ∧
  (512 < Z.of_N n / 512 mod 1024 → slope (wave_at_write n) = -1).
Proof.
  destruct (wave_at_write_closed n) as (_ & HC & _ & Hup & Hdown).
  destruct (wave_at_write_closed (N.succ n)) as (_ & HC' & _).
  split; [|done]. rewrite HC, HC', N2Z.inj_succ. unfold Z.succ, triangle.
  pose proof (Z.mod_pos_bound (Z.of_N n / 512) 1024 ltac:(lia)) as Hm.
  destruct (succ_div_mod_512 (Z.of_N n)) as [(Hr & -> & _) | (Hr & -> & _)].
  - destruct (Z.eqb_spec (Z.of_N n mod 512) 511); lia.
  - destruct (Z.eqb_spec (Z.of_N n mod 512) 511); [|lia].
    destruct (succ_mod_1024 (Z.of_N n / 512)) as [(Hm1 & ->) | (Hm1 & ->)];
      generalize dependent (Z.of_N n / 512 mod 1024); intros m; intros;
      destruct (Z.ltb_spec m 512), (Z.leb_spec m 512);
      try change (0 <=? 512) with true; cbv iota;
      try destruct (Z.leb_spec (m + 1) 512); lia.
Qed.

(** X4. The locals of the loop never wrap around.  At the head of every
    iteration the inner counter is within [0, TOP_CNT] and the slope is 1 or
    -1; at the pin write the inner counter is below [TOP_CNT]; [i++] and
    [CC += slope] give the sums of the integers, although they are computed
    in [uint32] with a negative slope converted. *)
Theorem throb_no_wraparound (n : N) :
  0 ≤ i (wave_at n) ≤ TOP_CNT ∧
  (slope (wave_at n) = 1 ∨ slope (wave_at n) = -1) ∧
  0 ≤ i (wave_at_write n) < TOP_CNT ∧
  i (wave_at (N.succ n)) = i (wave_at_write n) + 1 ∧
  CC (wave_at (N.succ n)) =
    (if i (wave_at n) =? TOP_CNT
     then CC (wave_at n) + slope (set_slope (wave_at n))
     else CC (wave_at n)).
Proof.
  pose proof (wave_at_ok n) as Hok.
  destruct (set_slope_ok _ Hok) as (Hok1 & Htop & Hbot).
  destruct Hok as (HC & Hi & Hs).
  rewrite wave_at_succ. unfold wave_at_write, throb_step, at_write, incr_i.
  cbn [CC i]. unfold advance. rewrite set_slope_i, set_slope_CC.
  destruct Hok1 as (_ & _ & Hs1). unfold TOP_CNT in *.
  destruct (CC_plus_slope (CC (wave_at n)) (slope (set_slope (wave_at n))) HC)
    as [Hplus Hminus].
  destruct (Z.eqb_spec (i (wave_at n)) 512) as [Heq|Hne]; cbn [CC i].
  - rewrite to_uint32_small by (simpl; lia).
    repeat (split; [lia|]).
    destruct Hs1 as [Hs1|Hs1].
    + rewrite Hplus by done. lia.
    + rewrite Hminus; [lia|done|lia].
  - rewrite set_slope_i, set_slope_CC.
    rewrite to_uint32_small by (change (2 ^ 32) with 4294967296; lia).
    repeat (split; [lia|]). done.
Qed.

Lemma wave_at_add (n k : N) : wave_at (n + k) = N.iter n throb_step (wave_at k).
Proof. unfold wave_at. apply N.iter_add. Qed.

(** The locals two iterations into the loop come back after one cycle. *)
Lemma wave_at_2_returns : wave_at (2 + cycle_length) = wave_at 2.
Proof. vm_compute. reflexivity. Qed.

(** X6. After its first two iterations the loop runs in a closed orbit:
    the locals at the head of iteration [n + 2], slope included, are the
    same 524288 iterations later; the locals of iteration 1 are not (the
    slope differs), so the first two heads are a transient. *)
Theorem throb_orbit (n : N) :
  wave_at (n + 2 + cycle_length) = wave_at (n + 2) ∧
  wave_at (1 + cycle_length) ≠ wave_at 1.
Proof.
  split.
  - replace (n + 2 + cycle_length)%N with (n + (2 + cycle_length))%N by lia.
    rewrite (wave_at_add n (2 + cycle_length)), (wave_at_add n 2).
    by rewrite wave_at_2_returns.
  - vm_compute. discriminate.
Qed.

(** ** The fault path as a whole *)


Section Fault_path_properties.
Context {error_usart : error_usart_config}.
Context {error_led : error_led_config}.
Context {usb_lines : nvic_usb_lines}.

(** The calls of [throb] do not depend on the registers it is entered with. *)
Lemma throb_ops_any_regs (fuel : nat) (hw hw' : periph) :
  ops (throb fuel hw) = ops (throb fuel hw').
Proof.
  destruct ERROR_LED_PORT as [port|] eqn:Hport, ERROR_LED_PIN as [pin|] eqn:Hpin.
  - destruct (throb_led_run port pin fuel hw Hport Hpin) as [gl ->].
    by destruct (throb_led_run port pin fuel hw' Hport Hpin) as [gl' ->].
  - by rewrite !throb_no_led_run by auto.
  - by rewrite !throb_no_led_run by auto.
  - by rewrite !throb_no_led_run by auto.
Qed.

Lemma __error_ops (fuel : nat) (hw : periph) :
  ops (__error fuel hw) =
  [Op_nvic_irq_disable_all; Op_timer_disable_all; Op_adc_disable_all;
   Op_usart_disable_all; Op_nvic_irq_enable NVIC_USB_HP_CAN_TX;
   Op_nvic_irq_enable NVIC_USB_LP_CAN_RX0; Op_nvic_globalirq_enable]
  ++ ops (throb fuel hw).
Proof.
  rewrite __error_run, __error_teardown_run. cbn [ops snd]. f_equal.
  apply throb_ops_any_regs.
Qed.


Lemma fault_trace_init_first (msg : string) (hw : periph) (t : list hw_op) :
  forallb (λ o, negb (is_putc o)) t = true →
  init_precedes_writes (ops (_enable_error_usart hw) ++ putc_ops ERROR_USART msg ++ t)
    ERROR_TX_PORT ERROR_TX_PIN ERROR_USART ERROR_USART_CLK_SPEED ERROR_USART_BAUD.
Proof.
  intros Ht. rewrite _enable_error_usart_run. cbn [ops snd].
  split_and!; [done|done|done|].
  intros a d c Ha. destruct a as [|[|[|a]]]; [done|done|done|].
  split; [lia|]. cbn in Ha.
  apply lookup_app_Some in Ha as [Ha|[_ Ha]].
  - apply list_elem_of_lookup_2 in Ha. unfold putc_ops in Ha.
    apply list_elem_of_fmap in Ha as (c' & Heq & _). by inversion Heq.
  - apply list_elem_of_lookup_2, list_elem_of_In in Ha.
    rewrite forallb_forall in Ht. by apply Ht in Ha.
Qed.

(** X1. None of the fault entry points comes back to its caller: however
    many iterations of the final loop are granted, [__error], [_fail],
    [__assert_func] and [abort] have not returned. *)
Theorem fault_entry_points_never_return (fuel : nat) (file : string) (line : Z)
    (method exp : string) (hw : periph) :
  result (__error fuel hw) = None ∧
  result (_fail fuel file line exp hw) = None ∧
  result (__assert_func fuel file line method exp hw) = None ∧
  result (abort fuel hw) = None.
Proof.
  split_and!.
  - apply __error_result.
  - apply _fail_result.
  - unfold __assert_func. apply _fail_result.
  - apply abort_result.
Qed.

(** X2. The waveform on the LED pin: in a build with an LED, pin write
    number [n] of [throb] (call [n + 1] of its trace) is high exactly when
    [n mod 512] is below the triangle wave at [n / 512]. *)
Theorem throb_pin_waveform (port : gpio_dev) (pin : N) (fuel n : nat) (hw : periph) :
  ERROR_LED_PORT = Some port → ERROR_LED_PIN = Some pin → (n < fuel)%nat →
  ops (throb fuel hw) !! S n =
  Some (Op_gpio_write_bit port pin
          (Z.of_nat n mod 512 <? triangle (Z.of_nat n / 512 mod 1024))).
Proof.
  intros Hport Hpin Hn.
  destruct (throb_led_run port pin fuel hw Hport Hpin) as [gl ->].
  cbn [ops snd]. rewrite lookup_cons, fade_ops_lookup by done.
  fold (wave_at (N.of_nat n)). fold (wave_at_write (N.of_nat n)).
  rewrite led_level_closed. unfold pin_high. by rewrite nat_N_Z.
Qed.

(** X7. Both entry points prepare the error USART before they use it: the
    first three calls of [_fail] and of [abort] set the transmit pin to
    alternate-function push-pull, initialise the error USART and set its
    baud rate; every character write comes after them and goes to the error
    USART. *)
Theorem fault_init_before_write (fuel : nat) (file : string) (line : Z) (exp : string)
    (hw : periph) :
  init_precedes_writes (ops (_fail fuel file line exp hw))
    ERROR_TX_PORT ERROR_TX_PIN ERROR_USART ERROR_USART_CLK_SPEED ERROR_USART_BAUD ∧
  init_precedes_writes (ops (abort fuel hw))
    ERROR_TX_PORT ERROR_TX_PIN ERROR_USART ERROR_USART_CLK_SPEED ERROR_USART_BAUD.
Proof.
  split.
  - rewrite _fail_run. cbn [ops snd]. apply fault_trace_init_first, __error_silent.
  - rewrite abort_run. cbn [ops snd]. apply fault_trace_init_first, __error_silent.
Qed.


(** X9. A negative line number is printed as a large positive one: [line]
    is an [int] handed to a [uint32] parameter, so for a line in
    [-2^31, 0) the message shows [line + 2^32]. *)
Theorem _fail_negative_line (fuel : nat) (file : string) (line : Z) (exp : string)
    (hw : periph) :
  - 2 ^ 31 ≤ line < 0 →
  sent ERROR_USART (ops (_fail fuel file line exp hw)) =
    "ERROR: FAILED ASSERT(" +:+ exp +:+ "): " +:+ file +:+ ": "
      +:+ udec (line + 2 ^ 32) +:+ String LF (String CR EmptyString) ∧
  2 ^ 31 ≤ line + 2 ^ 32 < 2 ^ 32.
Proof.
  intros Hline. split; [|lia]. rewrite _fail_sent.
  assert (Hu : to_uint32 line = line + 2 ^ 32).
  { unfold to_uint32.
    replace line with ((line + 2 ^ 32) + (-1) * 2 ^ 32) at 1 by lia.
    rewrite Z.mod_add by lia. apply Z.mod_small. lia. }
  by rewrite Hu.
Qed.

(** X10. In a build without error LED (one of the two macros undefined) the
    fault path makes a fixed, finite list of calls, whatever time passes:
    the three calls that prepare the error USART, the characters of the
    message, the seven teardown calls and nothing more. *)
Theorem fault_calls_without_led (fuel : nat) (file : string) (line : Z) (exp : string)
    (hw : periph) :
  ERROR_LED_PORT = None ∨ ERROR_LED_PIN = None →
  ops (_fail fuel file line exp hw) =
    [Op_gpio_set_mode ERROR_TX_PORT ERROR_TX_PIN GPIO_AF_OUTPUT_PP;
     Op_usart_init ERROR_USART;
     Op_usart_set_baud_rate ERROR_USART ERROR_USART_CLK_SPEED ERROR_USART_BAUD]
    ++ putc_ops ERROR_USART (assert_message file (to_uint32 line) exp)
    ++ [Op_nvic_irq_disable_all; Op_timer_disable_all; Op_adc_disable_all;
        Op_usart_disable_all; Op_nvic_irq_enable NVIC_USB_HP_CAN_TX;
        Op_nvic_irq_enable NVIC_USB_LP_CAN_RX0; Op_nvic_globalirq_enable] ∧
  ops (abort fuel hw) =
    [Op_gpio_set_mode ERROR_TX_PORT ERROR_TX_PIN GPIO_AF_OUTPUT_PP;
     Op_usart_init ERROR_USART;
     Op_usart_set_baud_rate ERROR_USART ERROR_USART_CLK_SPEED ERROR_USART_BAUD]
    ++ putc_ops ERROR_USART abort_message
    ++ [Op_nvic_irq_disable_all; Op_timer_disable_all; Op_adc_disable_all;
        Op_usart_disable_all; Op_nvic_irq_enable NVIC_USB_HP_CAN_TX;
        Op_nvic_irq_enable NVIC_USB_LP_CAN_RX0; Op_nvic_globalirq_enable].
Proof.
  intros Hno.
  assert (Herr : ∀ h, ops (__error fuel h) =
    [Op_nvic_irq_disable_all; Op_timer_disable_all; Op_adc_disable_all;
     Op_usart_disable_all; Op_nvic_irq_enable NVIC_USB_HP_CAN_TX;
     Op_nvic_irq_enable NVIC_USB_LP_CAN_RX0; Op_nvic_globalirq_enable]).
  { intros h. rewrite __error_ops, throb_no_led_run by done. done. }
  split.
  - rewrite _fail_run. cbn [ops snd]. by rewrite Herr, _enable_error_usart_run.
  - rewrite abort_run. cbn [ops snd]. by rewrite Herr, _enable_error_usart_run.
Qed.


End Fault_path_properties.

(** ** The further properties at concrete inputs *)

(** Pin write 512 is the first high one: the amplitude has just become 1. *)
Lemma throb_pin_waveform_witness :
  ops (@throb led_on_A5 520 busy_machine) !! 513%nat
    = Some (Op_gpio_write_bit GPIOA 5 true).
Proof.
  apply (@throb_pin_waveform led_on_A5 GPIOA 5%N 520 512 busy_machine eq_refl eq_refl).
  lia.
Defined.

(** In block 3 the amplitude is 3: sub-iteration 2 is high, as the count says. *)
Lemma throb_duty_cycle_witness :
  led_level (wave_at_write (512 * 3 + 2)) = true ∧
  Z.of_nat (high_writes (512 * 3) 512) = 3.
Proof.
  destruct (throb_duty_cycle 3) as (Hcount & Hlevel & _ & _).
  split; [|exact Hcount]. apply (Hlevel 2%N). reflexivity.
Defined.

(** Iteration 1000 lies in block 1, on the rising flank. *)
Lemma throb_amplitude_steps_witness : slope (wave_at_write 1000) = 1.
Proof.
  destruct (throb_amplitude_steps 1000) as (_ & Hup & _).
  apply Hup. split; reflexivity.
Defined.

(** The first character of the assertion message is call number 3. *)
Lemma fault_init_before_write_witness : (3 ≤ 3)%nat ∧ USART1 = USART1.
Proof.
  destruct (@fault_init_before_write BOARD_safecast led_on_A5 stm32f1_usb_lines 1
              "main.c" 42 "x>0" busy_machine) as [(_ & _ & _ & Hput) _].
  apply (Hput 3%nat USART1 "E"%char). reflexivity.
Defined.

(** Line -1 is printed as 4294967295. *)
Lemma _fail_negative_line_witness :
  sent USART2 (ops (@_fail BOARD_default no_led stm32f1_usb_lines 0
                      "main.c" (-1) "x>0" busy_machine))
    = "ERROR: FAILED ASSERT(x>0): main.c: 4294967295"
        +:+ String LF (String CR EmptyString).
Proof.
  destruct (@_fail_negative_line BOARD_default no_led stm32f1_usb_lines 0
              "main.c" (-1) "x>0" busy_machine) as [Hmsg _].
  - split; [discriminate|reflexivity].
  - exact Hmsg.
Defined.

(** Without LED [abort] makes 46 calls, after a thousand iterations as after none. *)
Lemma fault_calls_without_led_witness :
  length (ops (@abort BOARD_default no_led stm32f1_usb_lines 1000 busy_machine)) = 46%nat.
Proof.
  destruct (@fault_calls_without_led BOARD_default no_led stm32f1_usb_lines 1000
              "main.c" 42 "x>0" busy_machine) as [_ Habort].
  - by left.
  - rewrite Habort. reflexivity.
Defined.
